(** * BrowserTwitterConnector: a shallow embedding and its properties

    Source: [src/platform-connectors/browser-twitter-connector.ts].

    The connector drives a browser through puppeteer.  Every puppeteer call
    is kept as an explicit request answered by an environment that the
    development never fixes: theorems quantify over every environment, and
    concrete environments are only built for examples.  The connector's own
    fields, the outside world, the sequence of requests made and the lines
    handed to the logger are threaded through a state-and-exception monad,
    so that [try]/[catch], the [for ... of] loops with [break] and the
    order of effects read as they do in the TypeScript.

    Conventions.
    - [Logger] calls keep their level and message; the optional second
      argument (metadata, or the error being reported) is dropped.
    - puppeteer objects (browsers, pages, element handles) are numbered
      handles handed out by the environment.
    - numbers ([pollInterval], [Date.now()]) range over integers.
    - the code throws plain [Error]s; the error kinds the specification
      names (configuration, authentication, not connected, composer not
      found) are told apart by their messages. *)

From Stdlib Require Import Ascii String List ZArith Bool Lia DecimalString.
Import ListNotations.
Open Scope string_scope.
Open Scope Z_scope.

Set Implicit Arguments.

(** ** JavaScript values *)

Module Js.

(** Truthiness of [string | undefined]: undefined and the empty string
    are falsy. *)
Definition truthy_str (s : option string) : bool :=
  match s with
  | Some EmptyString | None => false
  | Some _ => true
  end.

(** Truthiness of [xs?.length]. *)
Definition truthy_length {A} (xs : option (list A)) : bool :=
  match xs with
  | Some (_ :: _) => true
  | _ => false
  end.

(** [a || b] on [number | undefined], integers only: zero is falsy. *)
Definition num_or (a : option Z) (b : Z) : Z :=
  match a with
  | Some n => if n =? 0 then b else n
  | None => b
  end.

(** [a || b] on [string | undefined]. *)
Definition str_or (a : option string) (b : string) : string :=
  match a with
  | Some EmptyString | None => b
  | Some s => s
  end.

(** [hay.includes(needle)]. *)
Fixpoint includes (needle hay : string) : bool :=
  String.prefix needle hay
  || match hay with
     | EmptyString => false
     | String _ rest => includes needle rest
     end.

(** [text && text.includes(needle)] for [text : string | null]. *)
Definition text_includes (needle : string) (text : option string) : bool :=
  match text with
  | Some t => includes needle t
  | None => false
  end.

(** The decimal rendering of an integer inside a template literal. *)
Definition show_number (n : Z) : string :=
  NilZero.string_of_int (Z.to_int n).

(** A thrown value: an [Error] object (class name and message) or any
    other value, kept by its [String(...)] rendering. *)
Inductive exn : Type :=
| ErrorObj (name message : string)
| Thrown (repr : string).

(** [new Error(message)]. *)
Definition Error (message : string) : exn := ErrorObj "Error" message.

(** [error instanceof Error ? error.message : String(error)]. *)
Definition error_text (e : exn) : string :=
  match e with
  | ErrorObj _ m => m
  | Thrown s => s
  end.

End Js.
Import Js.

(** ** Data model *)

Definition Agent := nat.
Definition AgentSwarm := nat.
Definition Browser := nat.
Definition Page := nat.
Definition ElementHandle := nat.

(** [BrowserTwitterConnectorConfig]: every field is optional. *)
Record BrowserTwitterConnectorConfig : Type := mkConfig {
  username : option string;
  password : option string;
  email : option string;
  monitorKeywords : option (list string);
  monitorUsers : option (list string);
  autoReply : option bool;
  pollInterval : option Z;
  headless : option bool;
  debug : option bool
}.

(** The private fields of [BrowserTwitterConnector].  A timer handle is
    identified with the period it was armed with. *)
Record Connector : Type := mkConnector {
  config : BrowserTwitterConnectorConfig;
  agent : option Agent;
  swarm : option AgentSwarm;
  browser : option Browser;
  page : option Page;
  connected : bool;
  monitorInterval : option Z
}.

(** The puppeteer requests the connector issues. *)
Inductive call : Type :=
| Launch (headless : option bool)          (* puppeteer.launch({...}) *)
| NewPage (b : Browser)                    (* browser.newPage() *)
| SetViewport (p : Page) (width height : Z)
| SetUserAgent (p : Page) (ua : string)
| Goto (p : Page) (url : string)           (* page.goto(url, networkidle2) *)
| Screenshot (p : Page) (path : string)
| WaitForSelector (p : Page) (selector : string)
| TypeInto (p : Page) (selector text : string)  (* page.type(sel, text) *)
| Query (p : Page) (selector : string)     (* page.$(sel) *)
| QueryAll (p : Page) (selector : string)  (* page.$$(sel) *)
| TextContent (p : Page) (el : ElementHandle)   (* evaluate(el => el.textContent) *)
| IsDisabled (p : Page) (el : ElementHandle)    (* evaluate(three disabled signals) *)
| ClickScript (p : Page)                   (* evaluate(scan-and-click script) *)
| Click (el : ElementHandle)
| TypeElement (el : ElementHandle) (text : string)
| KeyPress (p : Page) (key : string)       (* page.keyboard.press *)
| KeyType (p : Page) (text : string)       (* page.keyboard.type *)
| WaitForNavigation (p : Page)
| Url (p : Page)                           (* page.url() *)
| Close (b : Browser).                     (* browser.close() *)

(** What each request resolves to. *)
Definition answer (c : call) : Type :=
  match c with
  | Launch _ => Browser
  | NewPage _ => Page
  | Query _ _ => option ElementHandle
  | QueryAll _ _ => list ElementHandle
  | TextContent _ _ => option string
  | IsDisabled _ _ => bool
  | ClickScript _ => bool
  | Url _ => string
  | _ => unit
  end.

(** The outside world: it answers (or rejects) puppeteer requests, moves
    on while the connector sleeps, and has a clock. *)
Class Environment (W : Type) : Type := {
  respond : forall c : call, W -> (exn + answer c) * W;
  elapse : Z -> W -> W;
  clock : W -> Z
}.

(** What an observer of the process sees, in order. *)
Inductive event : Type :=
| Called (c : call)
| Slept (ms : Z)
| TimerArmed (ms : Z)        (* setInterval *)
| TimerCleared (ms : Z).     (* clearInterval *)

Inductive level : Type := LDebug | LInfo | LWarn | LError.

Record State (W : Type) : Type := mkState {
  self : Connector;
  world : W;
  trace : list event;
  logs : list (level * string)
}.

Arguments mkState {W}.
Arguments self {W}.
Arguments world {W}.
Arguments trace {W}.
Arguments logs {W}.

(** ** Selectors and other string constants

    Selectors quote attribute values with double quotes, so they are
    assembled from their pieces. *)

Definition dq : string := String "034"%char EmptyString.

(** [[name="value"]] *)
Definition attr (name value : string) : string :=
  "[" ++ name ++ "=" ++ dq ++ value ++ dq ++ "]".

(** [:has-text("value")] *)
Definition has_text (value : string) : string :=
  ":has-text(" ++ dq ++ value ++ dq ++ ")".

Definition loginUrl : string := "https://twitter.com/i/flow/login".
Definition homeUrl : string := "https://twitter.com/home".
Definition composeUrl : string := "https://twitter.com/compose/tweet".
Definition statusUrl (tweetId : string) : string :=
  "https://twitter.com/i/status/" ++ tweetId.

Definition userAgent : string :=
  "Mozilla/5.0 (Macintosh; Intel Mac OS X 10_15_7) AppleWebKit/537.36 (KHTML, like Gecko) Chrome/122.0.0.0 Safari/537.36".

Definition roleButton : string := attr "role" "button".
Definition buttonLike : string := "button, div" ++ attr "role" "button".

(** ** The monad: connector state, world, trace and log, with exceptions *)

Section Monad.

Context {W : Type}.

Definition M (A : Type) : Type := State W -> (exn + A) * State W.

Definition ret {A} (a : A) : M A := fun st => (inr a, st).

Definition throw {A} (e : exn) : M A := fun st => (inl e, st).

Definition bind {A B} (m : M A) (k : A -> M B) : M B :=
  fun st =>
    match m st with
    | (inr a, st') => k a st'
    | (inl e, st') => (inl e, st')
    end.

(** [try { m } catch (e) { h e }] *)
Definition try_catch {A} (m : M A) (h : exn -> M A) : M A :=
  fun st =>
    match m st with
    | (inr a, st') => (inr a, st')
    | (inl e, st') => h e st'
    end.

End Monad.

Arguments M : clear implicits.

Declare Scope js_scope.
Delimit Scope js_scope with js.
Notation "x <- m ;; k" := (bind m (fun x => k))
  (at level 100, m at next level, right associativity) : js_scope.
Notation "m ;; k" := (bind m (fun _ => k))
  (at level 100, right associativity) : js_scope.
Open Scope js_scope.

(** ** The connector *)

Section Program.

Context {W : Type} {E : Environment W}.

Local Abbreviation M := (M W).

(** [for (const x of xs) { ... }] where the body answers whether it set
    the loop's flag and left through [break]. *)
Fixpoint for_of {X} (body : X -> M bool) (xs : list X) : M bool :=
  match xs with
  | [] => ret false
  | x :: rest =>
      stop <- body x ;;
      if (stop : bool) then ret true else for_of body rest
  end.

(** *** Primitive effects *)

(** [await] one puppeteer request. *)
Definition perform (c : call) : M (answer c) :=
  fun st =>
    let (r, w) := respond c (world st) in
    (r, mkState (self st) w (trace st ++ [Called c]) (logs st)).

(** [await new Promise(resolve => setTimeout(resolve, ms))] *)
Definition sleep (ms : Z) : M unit :=
  fun st =>
    (inr tt,
     mkState (self st) (elapse ms (world st)) (trace st ++ [Slept ms]) (logs st)).

(** [Date.now()] *)
Definition now : M Z := fun st => (inr (clock (world st)), st).

(** [this.logger.<level>(message)] *)
Definition log (l : level) (message : string) : M unit :=
  fun st =>
    (inr tt, mkState (self st) (world st) (trace st) (logs st ++ [(l, message)])).

Definition emit (ev : event) : M unit :=
  fun st =>
    (inr tt, mkState (self st) (world st) (trace st ++ [ev]) (logs st)).

(** Reading and writing [this]. *)
Definition this : M Connector := fun st => (inr (self st), st).

Definition update (f : Connector -> Connector) : M unit :=
  fun st => (inr tt, mkState (f (self st)) (world st) (trace st) (logs st)).

Definition set_identity (a : option Agent) (s : option AgentSwarm) (c : Connector) :=
  mkConnector (config c) a s (browser c) (page c) (connected c) (monitorInterval c).
Definition set_browser (b : option Browser) (c : Connector) :=
  mkConnector (config c) (agent c) (swarm c) b (page c) (connected c) (monitorInterval c).
Definition set_page (p : option Page) (c : Connector) :=
  mkConnector (config c) (agent c) (swarm c) (browser c) p (connected c) (monitorInterval c).
Definition set_connected (v : bool) (c : Connector) :=
  mkConnector (config c) (agent c) (swarm c) (browser c) (page c) v (monitorInterval c).
Definition set_monitorInterval (t : option Z) (c : Connector) :=
  mkConnector (config c) (agent c) (swarm c) (browser c) (page c) (connected c) t.

(** [this.config.debug] as a condition. *)
Definition debug_on (c : Connector) : bool :=
  match debug (config c) with
  | Some true => true
  | _ => false
  end.

(** The puppeteer methods, each one request. *)
Definition launch (headless : option bool) : M Browser := perform (Launch headless).
Definition newPage (b : Browser) : M Page := perform (NewPage b).
Definition setViewport (p : Page) (w h : Z) : M unit := perform (SetViewport p w h).
Definition setUserAgent (p : Page) (ua : string) : M unit := perform (SetUserAgent p ua).
Definition goto (p : Page) (url : string) : M unit := perform (Goto p url).
Definition screenshot (p : Page) (path : string) : M unit := perform (Screenshot p path).
Definition waitForSelector (p : Page) (sel : string) : M unit := perform (WaitForSelector p sel).
Definition type_into (p : Page) (sel text : string) : M unit := perform (TypeInto p sel text).
Definition query (p : Page) (sel : string) : M (option ElementHandle) := perform (Query p sel).
Definition query_all (p : Page) (sel : string) : M (list ElementHandle) := perform (QueryAll p sel).
Definition textContent (p : Page) (el : ElementHandle) : M (option string) := perform (TextContent p el).
Definition isDisabled (p : Page) (el : ElementHandle) : M bool := perform (IsDisabled p el).
Definition clickScript (p : Page) : M bool := perform (ClickScript p).
Definition click (el : ElementHandle) : M unit := perform (Click el).
Definition type_element (el : ElementHandle) (text : string) : M unit := perform (TypeElement el text).
Definition keyboard_press (p : Page) (key : string) : M unit := perform (KeyPress p key).
Definition keyboard_type (p : Page) (text : string) : M unit := perform (KeyType p text).
Definition waitForNavigation (p : Page) : M unit := perform (WaitForNavigation p).
Definition url (p : Page) : M string := perform (Url p).
Definition close (b : Browser) : M unit := perform (Close b).

(** [if (this.config.debug) { await this.page.screenshot({ path }) }] *)
Definition debug_screenshot (p : Page) (path : string) : M unit :=
  c <- this ;;
  if debug_on c then screenshot p path else ret tt.

(** [if (!this.page) throw new Error('Browser not initialized')] *)
Definition require_page : M Page :=
  c <- this ;;
  match page c with
  | Some p => ret p
  | None => throw (Error "Browser not initialized")
  end.

(** ** constructor (lines 66-74) *)

Definition constructor (cfg : BrowserTwitterConnectorConfig) : Connector :=
  mkConnector
    (mkConfig (username cfg) (password cfg) (email cfg)
              (monitorKeywords cfg) (monitorUsers cfg) (autoReply cfg)
              (Some (num_or (pollInterval cfg) 60000))
              (Some (match headless cfg with Some false => false | _ => true end))
              (debug cfg))
    None None None None false None.

(** ** setupMonitoring, checkForTweets (lines 895-930) *)

Definition checkForTweets : M unit :=
  log LDebug "Tweet monitoring is limited in browser-only implementation".

Definition setupMonitoring : M unit :=
  c <- this ;;
  match monitorInterval c with
  | Some t => emit (TimerCleared t)
  | None => ret tt
  end ;;
  let pollInterval := num_or (pollInterval (config c)) 60000 in
  log LInfo "Setting up tweet monitoring" ;;
  emit (TimerArmed pollInterval) ;;
  update (set_monitorInterval (Some pollInterval)).

(** ** browserLogin (lines 148-324), step by step *)

(** NavigateLogin (lines 155-164) *)
Definition login_navigate (p : Page) : M unit :=
  log LDebug "Navigating to Twitter login" ;;
  goto p loginUrl ;;
  sleep 2000 ;;
  debug_screenshot p "twitter-login.png".

(** EnterUsername (lines 167-170) *)
Definition login_enterUsername (p : Page) (username : string) : M unit :=
  log LDebug "Entering username" ;;
  waitForSelector p ("input" ++ attr "autocomplete" "username") ;;
  type_into p ("input" ++ attr "autocomplete" "username") username ;;
  sleep 500.

(** ClickNext (lines 173-197) *)
Definition login_clickNext (p : Page) : M unit :=
  log LDebug "Clicking Next button" ;;
  nextButtons <- query_all p roleButton ;;
  nextClicked <-
    for_of (fun button =>
      try_catch
        (text <- textContent p button ;;
         if text_includes "Next" text then
           click button ;;
           log LDebug "Clicked Next button" ;;
           ret true
         else ret false)
        (fun _ => ret false))
      nextButtons ;;
  (if nextClicked then ret tt
   else
     log LWarn "Could not find Next button, trying to press Enter" ;;
     keyboard_press p "Enter") ;;
  sleep 2000.

(** EnterEmailVerification (lines 200-237) *)
Definition login_emailVerification (p : Page) (email : string) : M unit :=
  verifyInput <- query p ("input" ++ attr "data-testid" "ocfEnterTextTextInput") ;;
  match verifyInput with
  | None => ret tt
  | Some input =>
      log LDebug "Email verification needed" ;;
      match email with
      | EmptyString => throw (Error "Email verification required but no email provided")
      | _ => ret tt
      end ;;
      type_element input email ;;
      sleep 500 ;;
      verifyNextButtons <- query_all p roleButton ;;
      verifyNextClicked <-
        for_of (fun button =>
          try_catch
            (text <- textContent p button ;;
             if text_includes "Next" text then
               click button ;;
               log LDebug "Clicked verification Next button" ;;
               ret true
             else ret false)
            (fun _ => ret false))
          verifyNextButtons ;;
      (if verifyNextClicked then ret tt
       else
         log LWarn "Could not find verification Next button, trying to press Enter" ;;
         keyboard_press p "Enter") ;;
      sleep 2000
  end.

(** EnterPassword (lines 240-243) *)
Definition login_enterPassword (p : Page) (password : string) : M unit :=
  log LDebug "Entering password" ;;
  waitForSelector p ("input" ++ attr "name" "password") ;;
  type_into p ("input" ++ attr "name" "password") password ;;
  sleep 500.

(** ClickLogin (lines 246-267) *)
Definition login_clickLogin (p : Page) : M unit :=
  log LDebug "Clicking Log in button" ;;
  loginButtons <- query_all p roleButton ;;
  loginClicked <-
    for_of (fun button =>
      try_catch
        (text <- textContent p button ;;
         if text_includes "Log in" text || text_includes "Sign in" text then
           click button ;;
           log LDebug "Clicked Log in button" ;;
           ret true
         else ret false)
        (fun _ => ret false))
      loginButtons ;;
  if loginClicked then ret tt
  else
    log LWarn "Could not find Log in button, trying to press Enter" ;;
    keyboard_press p "Enter".

(** AwaitNavigation (lines 270-276) *)
Definition login_awaitNavigation (p : Page) : M unit :=
  log LDebug "Waiting for login completion" ;;
  waitForNavigation p ;;
  debug_screenshot p "twitter-logged-in.png".

Definition successIndicators : list string :=
  [ attr "data-testid" "primaryColumn";
    attr "aria-label" "Home timeline";
    attr "aria-label" "Timeline: Home";
    attr "data-testid" "SideNav_NewTweet_Button" ].

(** One turn of the [for] loop of VerifySuccess (lines 288-297). *)
Definition login_probe (p : Page) (selector : string) : M bool :=
  try_catch
    (element <- query p selector ;;
     match element with
     | Some _ =>
         log LDebug ("Login successful, found element: " ++ selector) ;;
         ret true
     | None => ret false
     end)
    (fun _ => ret false).

(** The [for] loop of VerifySuccess (lines 286-298). *)
Definition login_findIndicator (p : Page) : M bool :=
  for_of (login_probe p) successIndicators.

(** VerifySuccess (lines 279-309) *)
Definition login_verifySuccess (p : Page) : M unit :=
  loginSuccessful <- login_findIndicator p ;;
  if loginSuccessful then ret tt
  else
    log LWarn "Could not verify successful login by finding timeline elements" ;;
    currentUrl <- url p ;;
    if includes "login" currentUrl || includes "signin" currentUrl then
      throw (Error "Login failed - still on login page")
    else
      log LInfo "Proceeding anyway as we navigated away from login page".

(** NavigateHome (lines 312-315) *)
Definition login_navigateHome (p : Page) : M unit :=
  goto p homeUrl ;;
  sleep 3000 ;;
  log LInfo "Successfully logged in to Twitter".

(** The steps before VerifySuccess (lines 155-276). *)
Definition login_reachVerify (p : Page) (username password email : string) : M unit :=
  login_navigate p ;;
  login_enterUsername p username ;;
  login_clickNext p ;;
  login_emailVerification p email ;;
  login_enterPassword p password ;;
  login_clickLogin p ;;
  login_awaitNavigation p.

(** The body of the [try] (lines 154-315). *)
Definition login_flow (p : Page) (username password email : string) : M unit :=
  login_reachVerify p username password email ;;
  login_verifySuccess p ;;
  login_navigateHome p.

(** The [catch] (lines 316-323). *)
Definition login_failed (p : Page) (error : exn) : M unit :=
  log LError "Error during Twitter login" ;;
  debug_screenshot p "twitter-login-error.png" ;;
  throw (Error ("Twitter login failed: " ++ error_text error)).

Definition browserLogin (username password email : string) : M unit :=
  p <- require_page ;;
  try_catch (login_flow p username password email) (login_failed p).

(** ** connect (lines 82-139) *)

(** Lines 95-117 of the [try]: credentials, browser launch, page setup.
    Answers the credentials handed to [browserLogin]. *)
Definition connect_launch : M (string * string * string) :=
  c <- this ;;
  match username (config c), password (config c) with
  | Some (String _ _ as username), Some (String _ _ as password) =>
      log LInfo "Initializing browser for Twitter operations" ;;
      b <- launch (headless (config c)) ;;
      update (set_browser (Some b)) ;;
      p <- newPage b ;;
      update (set_page (Some p)) ;;
      setViewport p 1280 800 ;;
      setUserAgent p userAgent ;;
      log LInfo "Logging in to Twitter" ;;
      ret (username, password, str_or (email (config c)) "")
  | _, _ => throw (Error "Twitter username and password are required")
  end.

(** Lines 120-126 of the [try]. *)
Definition connect_finish : M unit :=
  update (set_connected true) ;;
  log LInfo "Connected to Twitter successfully" ;;
  c <- this ;;
  if truthy_length (monitorKeywords (config c))
     || truthy_length (monitorUsers (config c))
  then setupMonitoring
  else ret tt.

(** The body of the [try] (lines 94-126). *)
Definition connect_try : M unit :=
  credentials <- connect_launch ;;
  let '(username, password, email) := credentials in
  browserLogin username password email ;;
  connect_finish.

(** [await this.browser.close().catch(e => this.logger.error(...))] *)
Definition close_quietly (b : Browser) : M unit :=
  try_catch (close b)
            (fun _ => log LError "Error closing browser").

(** The [catch] (lines 127-138). *)
Definition connect_failed (error : exn) : M unit :=
  log LError "Failed to connect to Twitter" ;;
  c <- this ;;
  match browser c with
  | Some b =>
      close_quietly b ;;
      update (set_browser None) ;;
      update (set_page None)
  | None => ret tt
  end ;;
  throw error.

(** Lines 83-91: the identity is stored, the attempt announced. *)
Definition connect_identity (identity : Agent + AgentSwarm) : M unit :=
  match identity with
  | inl a => update (set_identity (Some a) None)
  | inr s => update (set_identity None (Some s))
  end ;;
  log LInfo "Connecting to Twitter".

Definition connect (identity : Agent + AgentSwarm) : M unit :=
  connect_identity identity ;;
  try_catch connect_try connect_failed.

(** ** disconnect (lines 331-359) *)

Definition disconnect : M unit :=
  c <- this ;;
  if negb (connected c) then ret tt
  else
    log LInfo "Disconnecting from Twitter" ;;
    try_catch
      (match monitorInterval c with
       | Some t =>
           emit (TimerCleared t) ;;
           update (set_monitorInterval None)
       | None => ret tt
       end ;;
       match browser c with
       | Some b =>
           log LDebug "Closing browser" ;;
           close_quietly b ;;
           update (set_browser None) ;;
           update (set_page None)
       | None => ret tt
       end ;;
       update (set_connected false) ;;
       log LInfo "Disconnected from Twitter")
      (fun error =>
         log LError "Failed to disconnect from Twitter" ;;
         throw error).

(** ** postTweetWithBrowser (lines 413-708) *)

Definition composeSelectors : list string :=
  [ attr "data-testid" "SideNav_NewTweet_Button";
    attr "aria-label" "Tweet";
    attr "aria-label" "Post";
    "a" ++ attr "href" "/compose/tweet" ].

Definition textareaSelectors : list string :=
  [ attr "data-testid" "tweetTextarea_0";
    attr "aria-label" "Tweet text";
    attr "aria-label" "Post text";
    attr "role" "textbox" ].

Definition tweetButtonSelectors : list string :=
  [ attr "data-testid" "tweetButtonInline";
    "div" ++ attr "data-testid" "tweetButton";
    "button" ++ attr "data-testid" "tweetButton";
    attr "aria-label" "Tweet";
    attr "aria-label" "Post";
    "div" ++ attr "role" "button" ++ has_text "Tweet";
    "div" ++ attr "role" "button" ++ has_text "Post";
    "button:enabled" ++ has_text "Post";
    "button:enabled" ++ has_text "Tweet" ].

(** Lines 421-430. *)
Definition post_openHome (p : Page) : M unit :=
  goto p homeUrl ;;
  sleep 5000 ;;
  debug_screenshot p "twitter-home-before-tweet.png".

(** Lines 433-455: the compose trigger; the flag is never read. *)
Definition post_clickCompose (p : Page) : M bool :=
  for_of (fun selector =>
    try_catch
      (button <- query p selector ;;
       match button with
       | Some button =>
           log LDebug ("Found compose button with selector: " ++ selector) ;;
           click button ;;
           log LDebug "Clicked compose button" ;;
           sleep 1500 ;;
           ret true
       | None => ret false
       end)
      (fun _ =>
         log LDebug ("Selector " ++ selector ++ " not found or could not be clicked") ;;
         ret false))
    composeSelectors.

(** Lines 465-486: the ordered textarea selector list. *)
Definition post_typeInTextarea (content : string) (p : Page) : M bool :=
  for_of (fun selector =>
    try_catch
      (log LDebug ("Looking for text area with selector: " ++ selector) ;;
       textareaElement <- query p selector ;;
       match textareaElement with
       | Some textareaElement =>
           log LDebug ("Found text area with selector: " ++ selector) ;;
           click textareaElement ;;
           sleep 1000 ;;
           type_element textareaElement content ;;
           sleep 2000 ;;
           log LDebug "Entered tweet content" ;;
           ret true
       | None => ret false
       end)
      (fun _ =>
         log LDebug ("Could not use selector " ++ selector) ;;
         ret false))
    textareaSelectors.

(** Lines 489-521: the placeholder-text scan of the [div] elements. *)
Definition post_placeholderScan (content : string) (p : Page) : M bool :=
  log LDebug ("Looking for " ++ dq ++ "What's happening?" ++ dq ++ " text") ;;
  try_catch
    (divs <- query_all p "div" ;;
     for_of (fun div =>
       text <- textContent p div ;;
       if text_includes "What's happening?" text
          || text_includes "What is happening?" text
          || text_includes "What's on your mind?" text
       then
         log LDebug ("Found " ++ dq ++ "What's happening?" ++ dq ++ " text, clicking it") ;;
         click div ;;
         sleep 1000 ;;
         keyboard_type p content ;;
         sleep 2000 ;;
         log LDebug "Entered tweet content via keyboard" ;;
         ret true
       else ret false)
       divs)
    (fun _ =>
       log LDebug ("Error looking for " ++ dq ++ "What's happening?" ++ dq ++ " text") ;;
       ret false).

(** Lines 524-551: the compose URL, then the selector list once more. *)
Definition post_directCompose (content : string) (p : Page) : M bool :=
  log LDebug "Trying direct navigation to compose page" ;;
  goto p composeUrl ;;
  sleep 3000 ;;
  debug_screenshot p "twitter-compose-direct.png" ;;
  for_of (fun selector =>
    try_catch
      (textareaElement <- query p selector ;;
       match textareaElement with
       | Some textareaElement =>
           log LDebug ("Found text area with selector: " ++ selector) ;;
           click textareaElement ;;
           sleep 1000 ;;
           type_element textareaElement content ;;
           log LDebug "Entered tweet content after direct navigation" ;;
           ret true
       | None => ret false
       end)
      (fun _ =>
         log LDebug ("Could not use selector " ++ selector ++ " after direct navigation") ;;
         ret false))
    textareaSelectors.

(** Lines 457-560: composer location, giving up when nothing worked. *)
Definition post_locateComposer (content : string) (p : Page) : M unit :=
  composerFound <- post_typeInTextarea content p ;;
  composerFound <-
    (if composerFound then ret true else post_placeholderScan content p) ;;
  composerFound <-
    (if composerFound then ret true else post_directCompose content p) ;;
  if composerFound then ret tt
  else
    debug_screenshot p "twitter-composer-not-found.png" ;;
    throw (Error "Could not find or use the tweet composer").

(** Lines 583-612: the prioritized selector list. *)
Definition post_submitBySelector (p : Page) : M bool :=
  for_of (fun selector =>
    try_catch
      (log LDebug ("Looking for tweet button with selector: " ++ selector) ;;
       button <- query p selector ;;
       match button with
       | Some button =>
           log LDebug ("Found tweet button with selector: " ++ selector) ;;
           disabled <- isDisabled p button ;;
           if disabled then
             log LDebug "Tweet button is disabled, cannot click" ;;
             ret false
           else
             click button ;;
             log LDebug "Clicked tweet button" ;;
             ret true
       | None => ret false
       end)
      (fun _ =>
         log LDebug ("Error with tweet button selector " ++ selector) ;;
         ret false))
    tweetButtonSelectors.

(** Lines 615-653: the scan of button-like elements by text. *)
Definition post_submitByText (p : Page) : M bool :=
  log LDebug ("Looking for any button with text " ++ dq ++ "Tweet" ++ dq
              ++ " or " ++ dq ++ "Post" ++ dq) ;;
  try_catch
    (buttons <- query_all p buttonLike ;;
     for_of (fun button =>
       try_catch
         (text <- textContent p button ;;
          match text with
          | Some text =>
              if includes "Tweet" text || includes "Post" text then
                log LDebug ("Found button with text: " ++ text) ;;
                disabled <- isDisabled p button ;;
                if disabled then
                  log LDebug "Button is disabled, cannot click" ;;
                  ret false
                else
                  click button ;;
                  log LDebug "Clicked button by text" ;;
                  ret true
              else ret false
          | None => ret false
          end)
         (fun _ => ret false))
       buttons)
    (fun _ =>
       log LDebug "Error looking for buttons by text" ;;
       ret false).

(** Lines 657-686: one in-page script that scans and clicks. *)
Definition post_submitByScript (p : Page) : M bool :=
  log LDebug "Trying to find any button that looks like a tweet button" ;;
  try_catch
    (tweetButtonFound <- clickScript p ;;
     if tweetButtonFound then
       log LDebug "Found and clicked tweet button via direct DOM evaluation" ;;
       ret true
     else ret false)
    (fun _ =>
       log LDebug "Error finding tweet button via direct DOM evaluation" ;;
       ret false).

(** Lines 580-693: submit-button location, ending with the Enter key. *)
Definition post_submit (p : Page) : M unit :=
  tweetButtonClicked <- post_submitBySelector p ;;
  tweetButtonClicked <-
    (if tweetButtonClicked then ret true else post_submitByText p) ;;
  tweetButtonClicked <-
    (if tweetButtonClicked then ret true else post_submitByScript p) ;;
  if tweetButtonClicked then ret tt
  else
    log LDebug "Could not find tweet button, trying Enter key" ;;
    keyboard_press p "Enter".

(** Lines 696-703. *)
Definition post_settle (p : Page) : M unit :=
  sleep 5000 ;;
  debug_screenshot p "twitter-after-posting.png" ;;
  log LInfo "Tweet posting completed".

Definition postTweetWithBrowser (content : string) : M unit :=
  p <- require_page ;;
  log LDebug "Posting new tweet using browser automation" ;;
  try_catch
    (post_openHome p ;;
     post_clickCompose p ;;
     post_locateComposer content p ;;
     debug_screenshot p "twitter-composed-tweet.png" ;;
     post_submit p ;;
     post_settle p)
    (fun error =>
       log LError "Error posting tweet with browser" ;;
       throw error).

(** ** postReplyWithBrowser (lines 716-890) *)

Definition replyButtonSelectors : list string :=
  [ attr "data-testid" "reply";
    attr "aria-label" "Reply";
    "div" ++ attr "role" "button" ++ attr "data-testid" "reply" ].

Definition replyTextareaSelectors : list string :=
  [ attr "data-testid" "tweetTextarea_0";
    attr "aria-label" "Tweet text";
    attr "aria-label" "Reply text";
    attr "role" "textbox" ].

Definition replyTweetButtonSelectors : list string :=
  [ attr "data-testid" "tweetButtonInline";
    attr "data-testid" "tweetButton";
    "div" ++ attr "role" "button" ++ has_text "Reply";
    "div" ++ attr "role" "button" ++ has_text "Tweet" ].

(** Lines 725-731. *)
Definition reply_openStatus (p : Page) (tweetId : string) : M unit :=
  goto p (statusUrl tweetId) ;;
  sleep 5000 ;;
  debug_screenshot p "twitter-reply-page.png".

(** Lines 740-760: the reply trigger. *)
Definition reply_clickReply (p : Page) : M unit :=
  replyButtonClicked <-
    for_of (fun selector =>
      try_catch
        (replyButton <- query p selector ;;
         match replyButton with
         | Some replyButton =>
             log LDebug ("Found reply button with selector: " ++ selector) ;;
             click replyButton ;;
             log LDebug "Clicked reply button" ;;
             sleep 2000 ;;
             ret true
         | None => ret false
         end)
        (fun _ =>
           log LDebug ("Reply button selector " ++ selector ++ " not found or error") ;;
           ret false))
      replyButtonSelectors ;;
  if replyButtonClicked then ret tt
  else throw (Error "Could not find or click reply button").

(** Lines 770-787: the ordered textarea selector list. *)
Definition reply_typeInTextarea (content : string) (p : Page) : M bool :=
  for_of (fun selector =>
    try_catch
      (textarea <- query p selector ;;
       match textarea with
       | Some textarea =>
           log LDebug ("Found reply textarea with selector: " ++ selector) ;;
           click textarea ;;
           sleep 1000 ;;
           type_element textarea content ;;
           log LDebug "Entered reply content" ;;
           ret true
       | None => ret false
       end)
      (fun _ =>
         log LDebug ("Reply textarea selector " ++ selector ++ " not found or error") ;;
         ret false))
    replyTextareaSelectors.

(** Lines 789-794: the keyboard fallback; answers [textareaFound] as it
    stands when the check of line 796 reads it. *)
Definition reply_enterContent (content : string) (p : Page) : M bool :=
  textareaFound <- reply_typeInTextarea content p ;;
  if textareaFound then ret true
  else
    log LDebug "Trying to enter reply text with keyboard" ;;
    keyboard_type p content ;;
    ret true.

(** Lines 770-798: composer location with its final check. *)
Definition reply_locateComposer (content : string) (p : Page) : M unit :=
  textareaFound <- reply_enterContent content p ;;
  if textareaFound then ret tt
  else throw (Error "Could not find or use reply textarea").

(** Lines 815-841: the selector list. *)
Definition reply_submitBySelector (p : Page) : M bool :=
  for_of (fun selector =>
    try_catch
      (button <- query p selector ;;
       match button with
       | Some button =>
           log LDebug ("Found reply tweet button with selector: " ++ selector) ;;
           disabled <- isDisabled p button ;;
           if disabled then
             log LDebug "Reply button is disabled, cannot click" ;;
             ret false
           else
             click button ;;
             log LDebug "Clicked reply tweet button" ;;
             ret true
       | None => ret false
       end)
      (fun _ =>
         log LDebug ("Reply tweet button selector " ++ selector ++ " not found or error") ;;
         ret false))
    replyTweetButtonSelectors.

(** Lines 844-868: the scan of button-like elements by text. *)
Definition reply_submitByText (p : Page) : M bool :=
  log LDebug "Looking for any button with Reply/Tweet text" ;;
  try_catch
    (buttons <- query_all p buttonLike ;;
     for_of (fun button =>
       try_catch
         (text <- textContent p button ;;
          match text with
          | Some text =>
              if includes "Reply" text || includes "Tweet" text then
                log LDebug ("Found button with text: " ++ text) ;;
                click button ;;
                log LDebug "Clicked button by text" ;;
                ret true
              else ret false
          | None => ret false
          end)
         (fun _ => ret false))
       buttons)
    (fun _ =>
       log LDebug "Error looking for buttons by text" ;;
       ret false).

(** Lines 813-875: submit-button location, ending with the Enter key. *)
Definition reply_submit (p : Page) : M unit :=
  replyTweetButtonClicked <- reply_submitBySelector p ;;
  replyTweetButtonClicked <-
    (if replyTweetButtonClicked then ret true else reply_submitByText p) ;;
  if replyTweetButtonClicked then ret tt
  else
    log LDebug "Could not find reply tweet button, trying Enter key" ;;
    keyboard_press p "Enter".

(** Lines 878-885. *)
Definition reply_settle (p : Page) : M unit :=
  sleep 5000 ;;
  debug_screenshot p "twitter-after-reply.png" ;;
  log LInfo "Reply posting completed".

Definition postReplyWithBrowser (content tweetId : string) : M unit :=
  p <- require_page ;;
  log LDebug ("Posting reply to tweet " ++ tweetId) ;;
  try_catch
    (reply_openStatus p tweetId ;;
     reply_clickReply p ;;
     reply_locateComposer content p ;;
     debug_screenshot p "twitter-reply-composed.png" ;;
     reply_submit p ;;
     reply_settle p)
    (fun error =>
       log LError "Error posting reply with browser" ;;
       throw error).

(** ** tweet (lines 368-406) *)

(** The body of the [try] (lines 379-398). *)
Definition tweet_try (p : Page) (content : string) (replyToId : option string)
  : M string :=
  timestamp <- now ;;
  let tweetId := "tweet_posted_" ++ show_number timestamp in
  match replyToId with
  | Some (String _ _ as replyToId) =>
      postReplyWithBrowser content replyToId ;;
      log LInfo "Reply posted successfully" ;;
      ret ("reply_to_" ++ replyToId ++ "_posted")
  | _ =>
      postTweetWithBrowser content ;;
      log LInfo "Tweet posted successfully" ;;
      debug_screenshot p "twitter-tweet-success.png" ;;
      ret tweetId
  end.

(** The [catch] (lines 399-405). *)
Definition tweet_failed (p : Page) (error : exn) : M string :=
  log LError "Error posting tweet" ;;
  debug_screenshot p "twitter-tweet-error.png" ;;
  throw error.

Definition tweet (content : string) (replyToId : option string) : M string :=
  c <- this ;;
  match connected c, page c, browser c with
  | true, Some p, Some _ =>
      log LDebug "Posting tweet" ;;
      try_catch (tweet_try p content replyToId) (tweet_failed p)
  | _, _, _ => throw (Error "Not connected to Twitter")
  end.

(** ** like, retweet, follow (lines 937-960) *)

Definition like (tweetId : string) : M unit :=
  log LWarn "Like functionality not fully implemented in browser-only version".

Definition retweet (tweetId : string) : M unit :=
  log LWarn "Retweet functionality not fully implemented in browser-only version".

Definition follow (username : string) : M unit :=
  log LWarn "Follow functionality not fully implemented in browser-only version".

End Program.

Create HintDb connector.

#[export] Hint Unfold
  launch newPage setViewport setUserAgent goto screenshot waitForSelector
  type_into query query_all textContent isDisabled clickScript click
  type_element keyboard_press keyboard_type waitForNavigation url close
  debug_screenshot require_page checkForTweets setupMonitoring
  login_navigate login_enterUsername login_clickNext login_emailVerification
  login_enterPassword login_clickLogin login_awaitNavigation
  login_probe login_findIndicator login_verifySuccess login_navigateHome
  login_reachVerify login_flow login_failed browserLogin
  connect_launch connect_finish connect_try close_quietly connect_failed
  connect_identity connect disconnect
  post_openHome post_clickCompose post_typeInTextarea post_placeholderScan
  post_directCompose post_locateComposer post_submitBySelector
  post_submitByText post_submitByScript post_submit post_settle
  postTweetWithBrowser
  reply_openStatus reply_clickReply reply_typeInTextarea reply_enterContent
  reply_locateComposer reply_submitBySelector reply_submitByText
  reply_submit reply_settle postReplyWithBrowser
  tweet_try tweet_failed tweet like retweet follow : connector.

(** ** A scripted site, for examples

    A world that never changes: it rejects the requests [rejects] names and
    answers the others from fixed tables. *)

Record Site : Type := mkSite {
  rejects : call -> option exn;
  found : string -> option ElementHandle;        (* page.$ *)
  found_all : string -> list ElementHandle;      (* page.$$ *)
  text_of : ElementHandle -> option string;
  disabled_of : ElementHandle -> bool;
  script_clicks : bool;
  location : string;
  time : Z
}.

Definition site_answer (s : Site) (c : call) : answer c :=
  match c as c0 return answer c0 with
  | Launch _ => 1%nat
  | NewPage _ => 1%nat
  | Query _ sel => found s sel
  | QueryAll _ sel => found_all s sel
  | TextContent _ el => text_of s el
  | IsDisabled _ el => disabled_of s el
  | ClickScript _ => script_clicks s
  | Url _ => location s
  | SetViewport _ _ _ => tt
  | SetUserAgent _ _ => tt
  | Goto _ _ => tt
  | Screenshot _ _ => tt
  | WaitForSelector _ _ => tt
  | TypeInto _ _ _ => tt
  | Click _ => tt
  | TypeElement _ _ => tt
  | KeyPress _ _ => tt
  | KeyType _ _ => tt
  | WaitForNavigation _ => tt
  | Close _ => tt
  end.

#[export] Instance site_environment : Environment Site := {
  respond c s :=
    match rejects s c with
    | Some e => (inl e, s)
    | None => (inr (site_answer s c), s)
    end;
  elapse _ s := s;
  clock s := time s
}.

(** A site on which nothing is rejected and no selector matches; the
    browser sits on the home timeline. *)
Definition quiet_site : Site :=
  mkSite (fun _ => None) (fun _ => None) (fun _ => []) (fun _ => None)
         (fun _ => false) false homeUrl 1700000000000.

(** The browser cannot be launched. *)
Definition launch_failure : exn := Error "Failed to launch the browser process".

Definition offline_site : Site :=
  mkSite (fun c => match c with Launch _ => Some launch_failure | _ => None end)
         (fun _ => None) (fun _ => []) (fun _ => None)
         (fun _ => false) false homeUrl 1700000000000.

(** The login page never finishes loading. *)
Definition navigation_timeout : exn :=
  ErrorObj "TimeoutError" "Navigation timeout of 30000 ms exceeded".

Definition unreachable_site : Site :=
  mkSite (fun c => match c with Goto _ _ => Some navigation_timeout | _ => None end)
         (fun _ => None) (fun _ => []) (fun _ => None)
         (fun _ => false) false loginUrl 1700000000000.

(** Every selector matches element 7, an enabled button-like element
    labelled Post. *)
Definition timeline_site : Site :=
  mkSite (fun _ => None) (fun _ => Some 7%nat) (fun _ => [7%nat])
         (fun _ => Some "Post") (fun _ => false) true homeUrl 1700000000000.

(** After the credentials are submitted the browser is still on the
    login flow and shows nothing of the home timeline. *)
Definition stuck_site : Site :=
  mkSite (fun _ => None) (fun _ => None) (fun _ => []) (fun _ => None)
         (fun _ => false) false loginUrl 1700000000000.

(** The page went away before a screenshot could be taken. *)
Definition target_closed : exn :=
  Error "Protocol error (Page.captureScreenshot): Target closed".

(** Only the screenshot written to [path] is rejected. *)
Definition rejects_screenshot (path : string) (c : call) : option exn :=
  match c with
  | Screenshot _ path' => if String.eqb path' path then Some target_closed else None
  | _ => None
  end.

(** The same, and the error screenshot of the login procedure is rejected. *)
Definition stuck_site_without_screenshot : Site :=
  mkSite (rejects_screenshot "twitter-login-error.png")
         (fun _ => None) (fun _ => []) (fun _ => None)
         (fun _ => false) false loginUrl 1700000000000.

(** No selector matches, and the compose URL cannot be reached. *)
Definition compose_unreachable_site : Site :=
  mkSite (fun c => match c with
                   | Goto _ u => if String.eqb u composeUrl
                                 then Some navigation_timeout else None
                   | _ => None
                   end)
         (fun _ => None) (fun _ => []) (fun _ => None)
         (fun _ => false) false homeUrl 1700000000000.

(** No selector matches, and the screenshot of the missing composer is
    rejected. *)
Definition quiet_site_without_screenshot : Site :=
  mkSite (rejects_screenshot "twitter-composer-not-found.png")
         (fun _ => None) (fun _ => []) (fun _ => None)
         (fun _ => false) false homeUrl 1700000000000.

(** No selector matches; the only button-like element, 7, is labelled
    Tweet and is disabled. *)
Definition disabled_button_site : Site :=
  mkSite (fun _ => None) (fun _ => None)
         (fun sel => if String.eqb sel buttonLike then [7%nat] else [])
         (fun _ => Some "Tweet") (fun _ => true) false homeUrl 1700000000000.

(** No selector matches and key presses are rejected. *)
Definition keyboard_failure : exn := Error "Protocol error (Input.dispatchKeyEvent)".

Definition keyboard_dead_site : Site :=
  mkSite (fun c => match c with KeyPress _ _ => Some keyboard_failure | _ => None end)
         (fun _ => None) (fun _ => []) (fun _ => None)
         (fun _ => false) false homeUrl 1700000000000.

(** A status page that shows a reply button, element 5, and nothing
    else; typing on the raw keyboard is rejected. *)
Definition typing_failure : exn := Error "Protocol error (Input.insertText)".

Definition typing_dead_site : Site :=
  mkSite (fun c => match c with KeyType _ _ => Some typing_failure | _ => None end)
         (fun sel => if existsb (String.eqb sel) replyButtonSelectors
                     then Some 5%nat else None)
         (fun _ => []) (fun _ => None)
         (fun _ => false) false homeUrl 1700000000000.

(** After the username the site asks for the email: the verification
    input, element 3, is the only element any selector finds. *)
Definition verification_site : Site :=
  mkSite (fun _ => None)
         (fun sel => if String.eqb sel ("input" ++ attr "data-testid" "ocfEnterTextTextInput")
                     then Some 3%nat else None)
         (fun _ => []) (fun _ => None)
         (fun _ => false) false loginUrl 1700000000000.

(** Credentials without an email. *)
Definition credentials_without_email : BrowserTwitterConnectorConfig :=
  mkConfig (Some "alice") (Some "secret") None None None None None None None.

(** Credentials and one monitor keyword, polled every second. *)
Definition monitoring_credentials : BrowserTwitterConnectorConfig :=
  mkConfig (Some "alice") (Some "secret") None (Some ["ai"]) None None
           (Some 1000) None None.

Definition credentials (debug : option bool) : BrowserTwitterConnectorConfig :=
  mkConfig (Some "alice") (Some "secret") (Some "alice@example.org")
           None None None None None debug.

Definition no_credentials : BrowserTwitterConnectorConfig :=
  mkConfig None None None None None None None None None.

(** A connector just constructed, facing world [w]. *)
Definition fresh {W} (cfg : BrowserTwitterConnectorConfig) (w : W) : State W :=
  mkState (constructor cfg) w [] [].

(** The same connector facing another world. *)
Definition facing {W} (w : W) (st : State W) : State W :=
  mkState (self st) w (trace st) (logs st).

(** ** Vocabulary of the statements *)

(** From here on [++] appends lists unless marked otherwise. *)
Open Scope list_scope.

Section Vocabulary.

Context {W : Type} {E : Environment W}.

Local Abbreviation M := (M W).

(** [m] relates every state it starts from to the state it ends in,
    whether it returns or throws. *)
Definition maintains {A} (R : State W -> State W -> Prop) (m : M A) : Prop :=
  forall st, R st (snd (m st)).

(** The part [f] of the connector's fields is left as it was. *)
Definition keeps {X} (f : Connector -> X) (st st' : State W) : Prop :=
  f (self st') = f (self st).

(** The trace grew by events that all satisfy [P]. *)
Definition grows_by (P : event -> Prop) (st st' : State W) : Prop :=
  exists l, trace st' = trace st ++ l /\ Forall P l.

(** The states a connector can be in: constructed from any configuration,
    then driven through its public methods, the timer tick included,
    while the world may change between two calls. *)
Inductive reachable : State W -> Prop :=
| reach_new cfg w : reachable (fresh cfg w)
| reach_world w st : reachable st -> reachable (facing w st)
| reach_connect identity st :
    reachable st -> reachable (snd (connect identity st))
| reach_disconnect st :
    reachable st -> reachable (snd (disconnect st))
| reach_tweet content replyToId st :
    reachable st -> reachable (snd (tweet content replyToId st))
| reach_like tweetId st :
    reachable st -> reachable (snd (like tweetId st))
| reach_retweet tweetId st :
    reachable st -> reachable (snd (retweet tweetId st))
| reach_follow username st :
    reachable st -> reachable (snd (follow username st))
| reach_tick st :
    reachable st -> reachable (snd (checkForTweets st)).

(** What [connect] throws when a credential is missing. *)
Definition missing_credentials : exn :=
  Error "Twitter username and password are required".

(** [username && password], as [connect] tests it. *)
Definition has_credentials (cfg : BrowserTwitterConnectorConfig) : bool :=
  truthy_str (username cfg) && truthy_str (password cfg).

(** Browser and page handles are held together or not at all, and a
    connector without credentials in its configuration holds neither
    and is not connected. *)
Definition consistent (st : State W) : Prop :=
  (browser (self st) = None <-> page (self st) = None)
  /\ (has_credentials (config (self st)) = false ->
      browser (self st) = None /\ connected (self st) = false).

(** What the verification step of the login procedure throws. *)
Definition still_on_login_page : exn :=
  Error "Login failed - still on login page".

(** What the new-post path throws when no composer was found. *)
Definition composer_not_found : exn :=
  Error "Could not find or use the tweet composer".

(** The state in which the [try] block of [postTweetWithBrowser] starts
    when [tweet] is called in [st]. *)
Definition posting (st : State W) : State W :=
  mkState (self st) (world st) (trace st)
          ((logs st ++ [(LDebug, "Posting tweet")])
           ++ [(LDebug, "Posting new tweet using browser automation")]).

(** The requests of a walk through an ordered list of composer
    selectors: queries for selectors of the list, clicks, typing of the
    content into an element, and waits. *)
Definition probing (selectors : list string) (p : Page) (content : string)
    (ev : event) : bool :=
  match ev with
  | Called (Query p' selector) =>
      Nat.eqb p' p && existsb (String.eqb selector) selectors
  | Called (Click _) => true
  | Called (TypeElement _ text) => String.eqb text content
  | Slept _ => true
  | _ => false
  end.

(** The requests of a walk through an ordered list of submit-button
    selectors: queries for selectors of the list, disabled-state checks
    and clicks. *)
Definition by_selector (selectors : list string) (p : Page) (ev : event) : bool :=
  match ev with
  | Called (Query p' selector) =>
      Nat.eqb p' p && existsb (String.eqb selector) selectors
  | Called (IsDisabled p' _) => Nat.eqb p' p
  | Called (Click _) => true
  | _ => false
  end.

(** The requests of a scan of the button-like elements by text,
    without ([checked = false]) or with a disabled-state check. *)
Definition by_text (checked : bool) (p : Page) (ev : event) : bool :=
  match ev with
  | Called (QueryAll p' selector) => Nat.eqb p' p && String.eqb selector buttonLike
  | Called (TextContent p' _) => Nat.eqb p' p
  | Called (IsDisabled p' _) => checked && Nat.eqb p' p
  | Called (Click _) => true
  | _ => false
  end.

(** Two procedures are the same to an observer: from every state they
    end alike, returning or throwing the same, after the same requests
    and waits. *)
Definition same_procedure {A} (m1 m2 : M A) : Prop :=
  forall st,
    fst (m1 st) = fst (m2 st)
    /\ trace (snd (m1 st)) = trace (snd (m2 st)).

(** The state in which the [try] block of [connect] starts. *)
Definition entering (identity : Agent + AgentSwarm) (st : State W) : State W :=
  snd (connect_identity identity st).







(** A browser handle or a timer is only held while the flag is set. *)
Definition settled (st : State W) : Prop :=
  (browser (self st) <> None -> connected (self st) = true)
  /\ (monitorInterval (self st) <> None -> connected (self st) = true).

(** [monitorKeywords?.length || monitorUsers?.length], as [connect]
    tests it. *)
Definition monitoring_configured (cfg : BrowserTwitterConnectorConfig) : bool :=
  truthy_length (monitorKeywords cfg) || truthy_length (monitorUsers cfg).

(** The requests [tweet] may make for this content and parent: it
    navigates to the parent's status page (reply) or to the home and
    compose pages (new post), types nothing but the content, presses no
    key but Enter, and never launches, configures or closes a browser. *)
Definition posting_request (content : string) (replyToId : option string)
    (ev : event) : bool :=
  match ev with
  | Called (Goto _ target) =>
      match replyToId with
      | Some (String _ _ as parentId) => String.eqb target (statusUrl parentId)
      | _ => String.eqb target homeUrl || String.eqb target composeUrl
      end
  | Called (TypeElement _ text) | Called (KeyType _ text) =>
      String.eqb text content
  | Called (KeyPress _ key) => String.eqb key "Enter"
  | Called (Query _ _) | Called (QueryAll _ _) | Called (TextContent _ _)
  | Called (IsDisabled _ _) | Called (ClickScript _) | Called (Click _)
  | Called (Screenshot _ _) | Slept _ => true
  | _ => false
  end.

(** The requests the login procedure may make with these credentials:
    it navigates to the login and home pages only, types the username
    into the username input and the password into the password input
    only, the email into a verification element only, never types on the
    raw keyboard, and presses no key but Enter. *)
Definition login_request (username password email : string) (ev : event) : bool :=
  match ev with
  | Called (Goto _ target) => String.eqb target loginUrl || String.eqb target homeUrl
  | Called (TypeInto _ selector text) =>
      String.eqb selector ("input" ++ attr "autocomplete" "username")%string
      && String.eqb text username
      || String.eqb selector ("input" ++ attr "name" "password")%string
         && String.eqb text password
  | Called (TypeElement _ text) => String.eqb text email
  | Called (KeyPress _ key) => String.eqb key "Enter"
  | Called (WaitForSelector _ _) | Called (Query _ _) | Called (QueryAll _ _)
  | Called (TextContent _ _) | Called (Click _) | Called (WaitForNavigation _)
  | Called (Url _) | Called (Screenshot _ _) | Slept _ => true
  | _ => false
  end.

(** What the reply path throws when no reply trigger could be clicked. *)
Definition reply_trigger_missing : exn :=
  Error "Could not find or click reply button".

(** What the login procedure throws when the site asks for an email and
    none is configured. *)
Definition email_required : exn :=
  Error "Email verification required but no email provided".

(** Requests that enter text or press a key. *)
Definition keyboard (ev : event) : bool :=
  match ev with
  | Called (TypeElement _ _) | Called (TypeInto _ _ _)
  | Called (KeyType _ _) | Called (KeyPress _ _) => true
  | _ => false
  end.

(** Requests that enter [content]: into an element or on the raw
    keyboard. *)
Definition is_typing (content : string) (ev : event) : bool :=
  match ev with
  | Called (TypeElement _ text) | Called (KeyType _ text) => String.eqb text content
  | _ => false
  end.

(** The state in which the [try] block of [postReplyWithBrowser] starts
    when [tweet] is called in [st] with parent [tweetId]. *)
Definition replying (tweetId : string) (st : State W) : State W :=
  mkState (self st) (world st) (trace st)
          ((logs st ++ [(LDebug, "Posting tweet")])
           ++ [(LDebug, ("Posting reply to tweet " ++ tweetId)%string)]).

(** Requests that submit what the composer holds: a click, the in-page
    click script, the Enter key. *)
Definition is_submission (ev : event) : bool :=
  match ev with
  | Called (Click _) | Called (ClickScript _) => true
  | Called (KeyPress _ key) => String.eqb key "Enter"
  | _ => false
  end.

(** The trace grew, and a request passing [Q] is among the new events. *)
Definition marks (Q : event -> bool) (st st' : State W) : Prop :=
  exists l, trace st' = trace st ++ l /\ existsb Q l = true.

(** The trace grew by a request passing [Q1] and, later, one passing
    [Q2]. *)
Definition marks_then (Q1 Q2 : event -> bool) (st st' : State W) : Prop :=
  exists l1 l2,
    trace st' = trace st ++ l1 ++ l2
    /\ existsb Q1 l1 = true /\ existsb Q2 l2 = true.

(** Whenever [m] returns a value that passes [ok], the states before and
    after are related by [R]. *)
Definition upon {A} (ok : A -> bool) (R : State W -> State W -> Prop) (m : M A)
  : Prop :=
  forall st a st', m st = (inr a, st') -> ok a = true -> R st st'.

(** The trace grew, by whatever requests. *)
Definition extends : State W -> State W -> Prop := grows_by (fun _ => True).

(** Typing [text] into the input that [selector] names. *)
Definition is_entry (selector text : string) (ev : event) : bool :=
  match ev with
  | Called (TypeInto _ selector' text') =>
      String.eqb selector' selector && String.eqb text' text
  | _ => false
  end.

(** The selectors of the two credential inputs. *)
Definition usernameInput : string := ("input" ++ attr "autocomplete" "username")%string.

Definition passwordInput : string := ("input" ++ attr "name" "password")%string.

(** Launching a browser, and closing one. *)
Definition is_launch (ev : event) : bool :=
  match ev with
  | Called (Launch _) => true
  | _ => false
  end.

Definition is_close (ev : event) : bool :=
  match ev with
  | Called (Close _) => true
  | _ => false
  end.

(** *** Reference procedures

    The fallback chains in the words of the corrected claims, written as
    functions of the world alone: what a procedure answers, the world it
    leaves and the requests it has made, in order.  A rejected request
    counts as a miss wherever the words say that a failure is swallowed.
    The procedures of the source are compared with these. *)

(** The requests [l] were made first. *)
Definition later (l : list event) (r : bool * W * list event)
  : bool * W * list event :=
  let '(hit, w, l') := r in (hit, w, l ++ l').

(** An ordered selector list with disabled-state check: query each
    selector in order; when an element is found, ask whether it is
    disabled; when it is not, click it.  The first accepted click ends
    the walk. *)
Fixpoint button_walk (p : Page) (selectors : list string) (w : W)
  : bool * W * list event :=
  match selectors with
  | [] => (false, w, [])
  | selector :: rest =>
      let (found, w1) := respond (Query p selector) w in
      match found with
      | inr (Some button) =>
          let (disabled, w2) := respond (IsDisabled p button) w1 in
          match disabled with
          | inr false =>
              let (clicked, w3) := respond (Click button) w2 in
              match clicked with
              | inr _ =>
                  (true, w3,
                   [Called (Query p selector); Called (IsDisabled p button);
                    Called (Click button)])
              | inl _ =>
                  later [Called (Query p selector); Called (IsDisabled p button);
                         Called (Click button)]
                        (button_walk p rest w3)
              end
          | _ =>
              later [Called (Query p selector); Called (IsDisabled p button)]
                    (button_walk p rest w2)
          end
      | _ => later [Called (Query p selector)] (button_walk p rest w1)
      end
  end.

(** An ordered selector list for the composer: query each selector in
    order; when an element is found, click it, wait a second and type
    the content into it.  The first accepted typing ends the walk. *)
Fixpoint textarea_walk (p : Page) (content : string) (selectors : list string)
    (w : W) : bool * W * list event :=
  match selectors with
  | [] => (false, w, [])
  | selector :: rest =>
      let (found, w1) := respond (Query p selector) w in
      match found with
      | inr (Some textarea) =>
          let (clicked, w2) := respond (Click textarea) w1 in
          match clicked with
          | inr _ =>
              let (typed, w3) :=
                respond (TypeElement textarea content) (elapse 1000 w2) in
              match typed with
              | inr _ =>
                  (true, w3,
                   [Called (Query p selector); Called (Click textarea);
                    Slept 1000; Called (TypeElement textarea content)])
              | inl _ =>
                  later [Called (Query p selector); Called (Click textarea);
                         Slept 1000; Called (TypeElement textarea content)]
                        (textarea_walk p content rest w3)
              end
          | inl _ =>
              later [Called (Query p selector); Called (Click textarea)]
                    (textarea_walk p content rest w2)
          end
      | _ => later [Called (Query p selector)] (textarea_walk p content rest w1)
      end
  end.

(** The scan of a list of elements by text: read each element's text in
    order; when it is a wanted one, click the element, after a
    disabled-state check that must answer no if [checked] is set.  The
    first accepted click ends the scan. *)
Fixpoint button_scan (checked : bool) (wanted : string -> bool) (p : Page)
    (buttons : list ElementHandle) (w : W) : bool * W * list event :=
  match buttons with
  | [] => (false, w, [])
  | button :: rest =>
      let (text, w1) := respond (TextContent p button) w in
      match text with
      | inr (Some text) =>
          if wanted text then
            if checked then
              let (disabled, w2) := respond (IsDisabled p button) w1 in
              match disabled with
              | inr false =>
                  let (clicked, w3) := respond (Click button) w2 in
                  match clicked with
                  | inr _ =>
                      (true, w3,
                       [Called (TextContent p button); Called (IsDisabled p button);
                        Called (Click button)])
                  | inl _ =>
                      later [Called (TextContent p button);
                             Called (IsDisabled p button); Called (Click button)]
                            (button_scan checked wanted p rest w3)
                  end
              | _ =>
                  later [Called (TextContent p button); Called (IsDisabled p button)]
                        (button_scan checked wanted p rest w2)
              end
            else
              let (clicked, w2) := respond (Click button) w1 in
              match clicked with
              | inr _ =>
                  (true, w2, [Called (TextContent p button); Called (Click button)])
              | inl _ =>
                  later [Called (TextContent p button); Called (Click button)]
                        (button_scan checked wanted p rest w2)
              end
          else later [Called (TextContent p button)]
                     (button_scan checked wanted p rest w1)
      | _ => later [Called (TextContent p button)]
                   (button_scan checked wanted p rest w1)
      end
  end.

(** The text scan of the button-like elements of the page. *)
Definition text_scan (checked : bool) (wanted : string -> bool) (p : Page) (w : W)
  : bool * W * list event :=
  let (buttons, w1) := respond (QueryAll p buttonLike) w in
  match buttons with
  | inr buttons =>
      later [Called (QueryAll p buttonLike)] (button_scan checked wanted p buttons w1)
  | inl _ => (false, w1, [Called (QueryAll p buttonLike)])
  end.

(** One in-page script that looks for the button and clicks it. *)
Definition page_script (p : Page) (w : W) : bool * W * list event :=
  let (clicked, w1) := respond (ClickScript p) w in
  (match clicked with inr true => true | _ => false end, w1,
   [Called (ClickScript p)]).

(** A fallback chain: the stages run in order, each from the world the
    one before left, until one succeeds. *)
Fixpoint first_success (stages : list (W -> bool * W * list event)) (w : W)
  : bool * W * list event :=
  match stages with
  | [] => (false, w, [])
  | stage :: rest =>
      let '(hit, w1, l1) := stage w in
      if hit then (true, w1, l1) else later l1 (first_success rest w1)
  end.

(** The last resort of a chain that found nothing: the content typed on
    the raw keyboard, or the Enter key; its rejection is the chain's. *)
Definition or_type (p : Page) (content : string) (r : bool * W * list event)
  : (exn + unit) * W * list event :=
  let '(hit, w, l) := r in
  if hit then (inr tt, w, l)
  else let (typed, w') := respond (KeyType p content) w in
       (typed, w', l ++ [Called (KeyType p content)]).

Definition or_press_enter (p : Page) (r : bool * W * list event)
  : (exn + unit) * W * list event :=
  let '(hit, w, l) := r in
  if hit then (inr tt, w, l)
  else let (pressed, w') := respond (KeyPress p "Enter") w in
       (pressed, w', l ++ [Called (KeyPress p "Enter")]).

(** The chains of the reply path, and the submit chain of the new-post
    path. *)
Definition reply_composer_chain (content : string) (p : Page) (w : W)
  : (exn + unit) * W * list event :=
  or_type p content
    (first_success [textarea_walk p content replyTextareaSelectors] w).

Definition reply_submit_chain (p : Page) (w : W) : (exn + unit) * W * list event :=
  or_press_enter p
    (first_success
       [button_walk p replyTweetButtonSelectors;
        text_scan false (fun text => includes "Reply" text || includes "Tweet" text) p]
       w).

Definition post_submit_chain (p : Page) (w : W) : (exn + unit) * W * list event :=
  or_press_enter p
    (first_success
       [button_walk p tweetButtonSelectors;
        text_scan true (fun text => includes "Tweet" text || includes "Post" text) p;
        page_script p]
       w).

(** A stage that cannot fail, as a procedure. *)
Definition answers (r : bool * W * list event) : (exn + bool) * W * list event :=
  let '(hit, w, l) := r in (inr hit, w, l).

(** [m] does what [reference] says: from every state it ends alike, in
    the same world, after exactly the same requests in the same order,
    and it writes no field of the connector. *)
Definition refines {A} (m : M A) (reference : W -> (exn + A) * W * list event)
  : Prop :=
  forall st,
    fst (m st) = fst (fst (reference (world st)))
    /\ world (snd (m st)) = snd (fst (reference (world st)))
    /\ trace (snd (m st)) = trace st ++ snd (reference (world st))
    /\ self (snd (m st)) = self st.

(** The world after the requests and waits of [l], made from [w]. *)
Fixpoint replay (w : W) (l : list event) : W :=
  match l with
  | [] => w
  | Called c :: rest => replay (snd (respond c w)) rest
  | Slept ms :: rest => replay (elapse ms w) rest
  | _ :: rest => replay w rest
  end.

(** Typing into an element. *)
Definition types_element (ev : event) : bool :=
  match ev with
  | Called (TypeElement _ _) => true
  | _ => false
  end.

(** The trace grew by requests and waits that all satisfy [P], and the
    world changed through them alone. *)
Definition replayed (P : event -> Prop) (st st' : State W) : Prop :=
  exists l,
    trace st' = trace st ++ l
    /\ world st' = replay (world st) l
    /\ Forall P l.

(** Among the requests [l], made from [w], every typing into an element
    comes right after a query for [selector] on page [p], and the element
    typed into is the one that query answered. *)
Definition typed_where_asked (p : Page) (selector : string) (w : W)
    (l : list event) : Prop :=
  forall l1 h text l2,
    l = l1 ++ Called (TypeElement h text) :: l2 ->
    exists l0,
      l1 = l0 ++ [Called (Query p selector)]
      /\ fst (respond (Query p selector) (replay w l0)) = inr (Some h).

(** [replayed], with every typing into an element where [selector]
    asked. *)
Definition asked_then_typed (p : Page) (selector : string) (P : event -> Prop)
    (st st' : State W) : Prop :=
  exists l,
    trace st' = trace st ++ l
    /\ world st' = replay (world st) l
    /\ Forall P l
    /\ typed_where_asked p selector (world st) l.

(** The selector of the email verification input. *)
Definition verificationInput : string :=
  ("input" ++ attr "data-testid" "ocfEnterTextTextInput")%string.

End Vocabulary.

(** ** How procedures run *)

Section Running.

Context {W : Type} {E : Environment W}.

Local Abbreviation M := (M W).

Lemma bind_returns {A B} (m : M A) (k : A -> M B) st a st' :
  m st = (inr a, st') -> bind m k st = k a st'.
Proof. intros H; unfold bind; now rewrite H. Qed.

Lemma bind_throws {A B} (m : M A) (k : A -> M B) st e st' :
  m st = (inl e, st') -> bind m k st = (inl e, st').
Proof. intros H; unfold bind; now rewrite H. Qed.

Lemma try_returns {A} (m : M A) h st a st' :
  m st = (inr a, st') -> try_catch m h st = (inr a, st').
Proof. intros H; unfold try_catch; now rewrite H. Qed.

Lemma try_throws {A} (m : M A) h st e st' :
  m st = (inl e, st') -> try_catch m h st = h e st'.
Proof. intros H; unfold try_catch; now rewrite H. Qed.

(** *** Composition rules for [maintains] *)

Section Rules.

Variable R : State W -> State W -> Prop.
Hypothesis R_refl : forall st, R st st.
Hypothesis R_trans : forall a b c, R a b -> R b c -> R a c.

Lemma maintains_ret {A} (a : A) : maintains R (ret a).
Proof. intro st; apply R_refl. Qed.

Lemma maintains_throw {A} e : maintains R (@throw W A e).
Proof. intro st; apply R_refl. Qed.

Lemma maintains_now : maintains R now.
Proof. intro st; apply R_refl. Qed.

Lemma maintains_this : maintains R this.
Proof. intro st; apply R_refl. Qed.

Lemma maintains_bind {A B} (m : M A) (k : A -> M B) :
  maintains R m -> (forall a, maintains R (k a)) -> maintains R (bind m k).
Proof.
  intros Hm Hk st. unfold bind.
  specialize (Hm st). destruct (m st) as [[e | a] st1]; simpl in *.
  - exact Hm.
  - eapply R_trans; [exact Hm | apply Hk].
Qed.

Lemma maintains_try_catch {A} (m : M A) h :
  maintains R m -> (forall e, maintains R (h e)) -> maintains R (try_catch m h).
Proof.
  intros Hm Hh st. unfold try_catch.
  specialize (Hm st). destruct (m st) as [[e | a] st1]; simpl in *.
  - eapply R_trans; [exact Hm | apply Hh].
  - exact Hm.
Qed.

Lemma maintains_for_of {X} (body : X -> M bool) xs :
  (forall x, In x xs -> maintains R (body x)) -> maintains R (for_of body xs).
Proof.
  intros Hbody. induction xs as [| x rest IH]; simpl.
  - apply maintains_ret.
  - apply maintains_bind; [apply Hbody; now left |].
    intros [|]; [apply maintains_ret |].
    apply IH. intros y Hy. apply Hbody. now right.
Qed.

End Rules.

End Running.

(** ** Frames: what the procedures leave alone *)

Ltac maintains_walk refl trans leaf :=
  repeat lazymatch goal with
  | |- maintains _ (bind _ _) => apply (maintains_bind trans); [ | intro ]
  | |- maintains _ (try_catch _ _) => apply (maintains_try_catch trans); [ | intro ]
  | |- maintains _ (for_of _ _) =>
      apply (maintains_for_of refl trans); intros ? ?
  | |- maintains _ (ret _) => apply (maintains_ret _ refl)
  | |- maintains _ (throw _) => apply (maintains_throw _ refl)
  | |- maintains _ now => apply (maintains_now _ refl)
  | |- maintains _ this => apply (maintains_this _ refl)
  | |- maintains _ (if ?b then _ else _) => destruct b
  | |- maintains _ (match ?x with _ => _ end) => destruct x
  | |- _ => leaf
  end.

Section Frames.

Context {W : Type} {E : Environment W}.

Local Abbreviation M := (M W).

Lemma keeps_refl {X} (f : Connector -> X) (st : State W) : keeps f st st.
Proof. reflexivity. Qed.

Lemma keeps_trans {X} (f : Connector -> X) (a b c : State W) :
  keeps f a b -> keeps f b c -> keeps f a c.
Proof. unfold keeps; congruence. Qed.

Lemma keeps_perform {X} (f : Connector -> X) c :
  maintains (W:=W) (keeps f) (perform c).
Proof. intro st; unfold perform; now destruct (respond c (world st)). Qed.

(** Requests, sleeps, log lines and timer events never write a field;
    a setter keeps the fields it does not set. *)
Ltac keeps_leaf f :=
  idtac;
  lazymatch goal with
  | |- maintains _ (perform ?c) => exact (keeps_perform f c)
  | |- maintains _ (sleep _) => now intro
  | |- maintains _ (log _ _) => now intro
  | |- maintains _ (emit _) => now intro
  | |- maintains _ (update _) => now intro
  end.

Ltac keeps_walk :=
  autounfold with connector;
  lazymatch goal with
  | |- maintains (keeps ?f) _ =>
      maintains_walk (@keeps_refl _ f) (@keeps_trans _ f) ltac:(keeps_leaf f)
  end.

(** Posting, the stubs and the login procedure never touch the
    connector's fields. *)
Lemma tweet_keeps_self content replyToId :
  maintains (W:=W) (keeps id) (tweet content replyToId).
Proof. keeps_walk. Qed.

Lemma like_keeps_self tweetId : maintains (W:=W) (keeps id) (like tweetId).
Proof. keeps_walk. Qed.

Lemma retweet_keeps_self tweetId : maintains (W:=W) (keeps id) (retweet tweetId).
Proof. keeps_walk. Qed.

Lemma follow_keeps_self username : maintains (W:=W) (keeps id) (follow username).
Proof. keeps_walk. Qed.

Lemma checkForTweets_keeps_self : maintains (W:=W) (keeps id) checkForTweets.
Proof. keeps_walk. Qed.

Lemma browserLogin_keeps_self username password email :
  maintains (W:=W) (keeps id) (browserLogin username password email).
Proof. keeps_walk. Qed.

Lemma post_openHome_keeps_self p : maintains (W:=W) (keeps id) (post_openHome p).
Proof. keeps_walk. Qed.

Lemma post_clickCompose_keeps_self p :
  maintains (W:=W) (keeps id) (post_clickCompose p).
Proof. keeps_walk. Qed.

Lemma post_typeInTextarea_keeps_self content p :
  maintains (W:=W) (keeps id) (post_typeInTextarea content p).
Proof. keeps_walk. Qed.

Lemma post_placeholderScan_keeps_self content p :
  maintains (W:=W) (keeps id) (post_placeholderScan content p).
Proof. keeps_walk. Qed.

Lemma post_directCompose_keeps_self content p :
  maintains (W:=W) (keeps id) (post_directCompose content p).
Proof. keeps_walk. Qed.

(** Nothing ever writes the configuration. *)
Lemma connect_keeps_config identity :
  maintains (W:=W) (keeps config) (connect identity).
Proof. keeps_walk. Qed.

Lemma disconnect_keeps_config : maintains (W:=W) (keeps config) disconnect.
Proof. keeps_walk. Qed.

(** The launch phase writes the two handles only. *)
Lemma connect_launch_keeps_flag :
  maintains (W:=W) (keeps connected) connect_launch.
Proof. keeps_walk. Qed.

Lemma connect_launch_keeps_config :
  maintains (W:=W) (keeps config) connect_launch.
Proof. keeps_walk. Qed.

(** The launch phase and the [catch] block leave the timer and the
    identity alone. *)
Lemma connect_launch_keeps_timer :
  maintains (W:=W) (keeps monitorInterval) connect_launch.
Proof. keeps_walk. Qed.

Lemma connect_failed_keeps_timer error :
  maintains (W:=W) (keeps monitorInterval) (connect_failed error).
Proof. keeps_walk. Qed.

Lemma connect_failed_keeps_flag error :
  maintains (W:=W) (keeps connected) (connect_failed error).
Proof. keeps_walk. Qed.

Lemma connect_attempt_keeps_agent :
  maintains (W:=W) (keeps agent) (try_catch connect_try connect_failed).
Proof. keeps_walk. Qed.

Lemma connect_attempt_keeps_swarm :
  maintains (W:=W) (keeps swarm) (try_catch connect_try connect_failed).
Proof. keeps_walk. Qed.

Lemma postReplyWithBrowser_keeps_self content tweetId :
  maintains (W:=W) (keeps id) (postReplyWithBrowser content tweetId).
Proof. keeps_walk. Qed.

Lemma postTweetWithBrowser_keeps_self content :
  maintains (W:=W) (keeps id) (postTweetWithBrowser content).
Proof. keeps_walk. Qed.

Lemma login_reachVerify_keeps_self p username password email :
  maintains (W:=W) (keeps id) (login_reachVerify p username password email).
Proof. keeps_walk. Qed.

Lemma login_navigate_keeps_self p :
  maintains (W:=W) (keeps id) (login_navigate p).
Proof. keeps_walk. Qed.

Lemma login_enterUsername_keeps_self p username :
  maintains (W:=W) (keeps id) (login_enterUsername p username).
Proof. keeps_walk. Qed.

Lemma login_clickNext_keeps_self p :
  maintains (W:=W) (keeps id) (login_clickNext p).
Proof. keeps_walk. Qed.

Lemma reply_openStatus_keeps_self p tweetId :
  maintains (W:=W) (keeps id) (reply_openStatus p tweetId).
Proof. keeps_walk. Qed.

Lemma reply_clickReply_keeps_self p :
  maintains (W:=W) (keeps id) (reply_clickReply p).
Proof. keeps_walk. Qed.

End Frames.

(** ** The connector's life cycle *)

Section Lifecycle.

Context {W : Type} {E : Environment W}.

Local Abbreviation M := (M W).

Lemma connect_launch_refused (st : State W) :
  has_credentials (config (self st)) = false ->
  connect_launch st = (inl missing_credentials, st).
Proof.
  unfold has_credentials, connect_launch, bind, this. simpl.
  destruct (username (config (self st))) as [[| a u] |];
    destruct (password (config (self st))) as [[| b pw] |];
    simpl; intros H; try discriminate; reflexivity.
Qed.

(** Without credentials and without a browser handle, [connect] stores
    the identity, writes two log lines and throws. *)
Lemma connect_refused identity (st : State W) :
  has_credentials (config (self st)) = false ->
  browser (self st) = None ->
  connect identity st =
    (inl missing_credentials,
     mkState (self (entering identity st)) (world st) (trace st)
             (logs st ++ [(LInfo, "Connecting to Twitter");
                          (LError, "Failed to connect to Twitter")])).
Proof.
  intros Hc Hb.
  assert (Hc' : has_credentials (config (self (entering identity st))) = false)
    by (destruct identity; exact Hc).
  assert (Hb' : browser (self (entering identity st)) = None)
    by (destruct identity; exact Hb).
  unfold connect.
  rewrite bind_returns with (a:=tt) (st':=entering identity st)
    by (destruct identity; reflexivity).
  unfold connect_try.
  rewrite try_throws with (e:=missing_credentials) (st':=entering identity st)
    by (apply bind_throws, connect_launch_refused, Hc').
  unfold connect_failed, bind, log, this, throw; simpl.
  rewrite Hb'. destruct identity; simpl; now rewrite <- app_assoc.
Qed.

(** *** The [catch] block of [connect] *)

Lemma connect_failed_throws error (st : State W) :
  fst (connect_failed error st) = inl error.
Proof.
  unfold connect_failed, close_quietly, close, perform, bind, try_catch,
    this, log, update, throw; simpl.
  destruct (browser (self st)) as [b |]; simpl; [| reflexivity].
  destruct (respond (Close b) (world st)) as [[e | []] w]; reflexivity.
Qed.

(** No handle held: one log line, nothing else. *)
Lemma connect_failed_idle error (st : State W) :
  browser (self st) = None ->
  snd (connect_failed error st) =
    mkState (self st) (world st) (trace st)
            (logs st ++ [(LError, "Failed to connect to Twitter")]).
Proof.
  intros Hb.
  unfold connect_failed, bind, this, log, throw; simpl.
  now rewrite Hb.
Qed.

(** A handle held: it is closed, exactly once, whatever [close] answers,
    and both handles are dropped. *)
Lemma connect_failed_closes error (st : State W) b :
  browser (self st) = Some b ->
  self (snd (connect_failed error st))
    = set_page None (set_browser None (self st))
  /\ trace (snd (connect_failed error st)) = trace st ++ [Called (Close b)]
  /\ world (snd (connect_failed error st)) = snd (respond (Close b) (world st))
  /\ logs (snd (connect_failed error st))
     = logs st ++ (LError, "Failed to connect to Twitter")
                  :: match fst (respond (Close b) (world st)) with
                     | inl _ => [(LError, "Error closing browser")]
                     | inr _ => []
                     end.
Proof.
  intros Hb.
  unfold connect_failed, close_quietly, close, perform, bind, try_catch,
    this, log, update, throw; simpl.
  rewrite Hb; simpl.
  destruct (respond (Close b) (world st)) as [[e | []] w]; simpl;
    rewrite <- ?app_assoc; auto.
Qed.

(** *** The [try] block of [connect] *)

(** [connect_finish] cannot throw; it raises the flag and keeps the
    handles. *)
Lemma connect_finish_returns (st : State W) :
  fst (connect_finish st) = inr tt
  /\ connected (self (snd (connect_finish st))) = true
  /\ browser (self (snd (connect_finish st))) = browser (self st)
  /\ page (self (snd (connect_finish st))) = page (self st).
Proof.
  unfold connect_finish, setupMonitoring, bind, this, log, update, emit, ret;
    simpl.
  destruct (truthy_length (monitorKeywords (config (self st)))
            || truthy_length (monitorUsers (config (self st)))); simpl;
    [| auto].
  destruct (monitorInterval (self st)); simpl; auto.
Qed.

(** When the launch phase throws, either nothing was written to the
    connector, or a browser handle is held. *)
Lemma connect_launch_throws (st : State W) e st' :
  connect_launch st = (inl e, st') ->
  self st' = self st \/ exists b, browser (self st') = Some b.
Proof.
  unfold connect_launch, launch, newPage, setViewport, setUserAgent,
    perform, bind, this, log, update, ret, throw; simpl.
  destruct (username (config (self st))) as [[| a u] |];
    destruct (password (config (self st))) as [[| a' pw] |];
    simpl; try (intros [= <- <-]; now left).
  destruct (respond (Launch (headless (config (self st)))) (world st))
    as [[e1 | b] w1]; simpl; [intros [= <- <-]; now left |].
  destruct (respond (NewPage b) w1) as [[e2 | p] w2]; simpl;
    [intros [= <- <-]; right; now exists b |].
  destruct (respond (SetViewport p 1280 800) w2) as [[e3 | []] w3]; simpl;
    [intros [= <- <-]; right; now exists b |].
  destruct (respond (SetUserAgent p userAgent) w3) as [[e4 | []] w4]; simpl;
    [intros [= <- <-]; right; now exists b | discriminate].
Qed.

(** When the launch phase returns, both handles are held, and the
    credentials it hands on are those of the configuration. *)
Lemma connect_launch_returns (st : State W) creds st' :
  connect_launch st = (inr creds, st') ->
  exists b p,
    self st' = set_page (Some p) (set_browser (Some b) (self st))
    /\ has_credentials (config (self st)) = true.
Proof.
  unfold connect_launch, launch, newPage, setViewport, setUserAgent,
    perform, bind, this, log, update, ret, throw, has_credentials; simpl.
  destruct (username (config (self st))) as [[| a u] |];
    destruct (password (config (self st))) as [[| a' pw] |];
    simpl; try discriminate.
  destruct (respond (Launch (headless (config (self st)))) (world st))
    as [[e1 | b] w1]; simpl; [discriminate |].
  destruct (respond (NewPage b) w1) as [[e2 | p] w2]; simpl; [discriminate |].
  destruct (respond (SetViewport p 1280 800) w2) as [[e3 | []] w3]; simpl;
    [discriminate |].
  destruct (respond (SetUserAgent p userAgent) w3) as [[e4 | []] w4]; simpl;
    [discriminate |].
  intros [= <- <-]. now exists b, p.
Qed.


(** The [try] block of [connect] throws only from its launch phase or
    from [browserLogin]. *)
Lemma connect_try_throws (st : State W) e st' :
  connect_try st = (inl e, st') ->
  connect_launch st = (inl e, st')
  \/ exists username password email s1,
       connect_launch st = (inr (username, password, email), s1)
       /\ browserLogin username password email s1 = (inl e, st').
Proof.
  unfold connect_try, bind.
  destruct (connect_launch st) as [[e1 | [[u pw] em]] s1];
    [intros [= <- <-]; now left |].
  destruct (browserLogin u pw em s1) as [[e2 | []] s2] eqn:Hlogin.
  - intros [= <- <-]. right. now exists u, pw, em, s1.
  - pose proof (connect_finish_returns s2) as [Hf _].
    destruct (connect_finish s2) as [r s3]; simpl in Hf; subst r. discriminate.
Qed.

(** After a failed [try] block a missing browser handle means that the
    connector's fields are those the block started with. *)
Lemma connect_try_throws_idle (st : State W) e st' :
  connect_try st = (inl e, st') ->
  browser (self st') = None ->
  self st' = self st.
Proof.
  intros Htry Hb.
  destruct (connect_try_throws _ Htry) as [Hl | (u & pw & em & s1 & Hl & Hlogin)].
  - destruct (connect_launch_throws _ Hl) as [-> | [b Hb']]; congruence.
  - destruct (connect_launch_returns _ Hl) as (b & p & Hs1 & _).
    pose proof (browserLogin_keeps_self u pw em s1) as Hsame.
    unfold keeps, id in Hsame. rewrite Hlogin in Hsame; simpl in Hsame.
    rewrite Hsame, Hs1 in Hb. discriminate.
Qed.

(** When [connect] returns, the connector is connected and holds both
    handles. *)
Lemma connect_returns identity (st : State W) st' :
  connect identity st = (inr tt, st') ->
  connected (self st') = true
  /\ (exists b, browser (self st') = Some b)
  /\ (exists p, page (self st') = Some p)
  /\ has_credentials (config (self st)) = true.
Proof.
  unfold connect, bind.
  destruct (connect_identity identity st) as [[e0 | []] s0] eqn:Hid;
    [discriminate |].
  assert (Hcfg : config (self s0) = config (self st))
    by (destruct identity; injection Hid as <-; reflexivity).
  unfold try_catch.
  destruct (connect_try s0) as [[e | []] s1] eqn:Htry.
  - intros H. pose proof (connect_failed_throws e s1) as Hf.
    rewrite H in Hf. discriminate.
  - intros [= <-]. revert Htry. unfold connect_try, bind.
    destruct (connect_launch s0) as [[e1 | [[u pw] em]] s2] eqn:Hl;
      [discriminate |].
    destruct (connect_launch_returns _ Hl) as (b & p & Hs2 & Hc).
    pose proof (browserLogin_keeps_self u pw em s2) as Hsame.
    unfold keeps, id in Hsame.
    destruct (browserLogin u pw em s2) as [[e2 | []] s3]; [discriminate |].
    simpl in Hsame.
    pose proof (connect_finish_returns s3) as (_ & Hconn & Hb & Hp).
    intros Hfin. rewrite Hfin in Hconn, Hb, Hp; simpl in *.
    rewrite Hsame, Hs2 in Hb, Hp; simpl in *.
    rewrite <- Hcfg. repeat split; eauto.
Qed.

Lemma connect_identity_returns identity (st : State W) :
  connect_identity identity st = (inr tt, entering identity st).
Proof. unfold entering; destruct identity; reflexivity. Qed.

Lemma entering_keeps identity (st : State W) :
  config (self (entering identity st)) = config (self st)
  /\ browser (self (entering identity st)) = browser (self st)
  /\ page (self (entering identity st)) = page (self st)
  /\ connected (self (entering identity st)) = connected (self st)
  /\ world (entering identity st) = world st
  /\ trace (entering identity st) = trace st.
Proof. destruct identity; repeat split. Qed.

(** [connect] throws exactly when its [try] block does; the final state
    is the one its [catch] block leaves. *)
Lemma connect_throws identity (st : State W) e st' :
  connect identity st = (inl e, st') ->
  exists s1,
    connect_try (entering identity st) = (inl e, s1)
    /\ st' = snd (connect_failed e s1).
Proof.
  unfold connect.
  rewrite bind_returns with (a:=tt) (st':=entering identity st)
    by apply connect_identity_returns.
  unfold try_catch.
  destruct (connect_try (entering identity st)) as [[e1 | []] s1];
    [| discriminate].
  intros H. pose proof (connect_failed_throws e1 s1) as Hf.
  rewrite H in Hf; simpl in Hf. injection Hf as ->.
  exists s1. split; [reflexivity |]. now rewrite H.
Qed.

(** *** disconnect *)

Lemma disconnect_idle (st : State W) :
  connected (self st) = false -> disconnect st = (inr tt, st).
Proof.
  intros Hc. unfold disconnect, bind, this; simpl. now rewrite Hc.
Qed.

Lemma disconnect_connected (st : State W) :
  connected (self st) = true ->
  fst (disconnect st) = inr tt
  /\ connected (self (snd (disconnect st))) = false
  /\ browser (self (snd (disconnect st))) = None
  /\ (page (self (snd (disconnect st))) = None
      \/ (browser (self st) = None
          /\ page (self (snd (disconnect st))) = page (self st))).
Proof.
  intros Hc.
  unfold disconnect, close_quietly, close, perform, bind, try_catch, this,
    log, emit, update, ret, throw; simpl.
  rewrite Hc; simpl.
  destruct (monitorInterval (self st)); simpl;
    (destruct (browser (self st)) as [b |] eqn:Hb; simpl;
     [ destruct (respond (Close b) (world st)) as [[e | []] w]; simpl; auto
     | rewrite ?Hb; auto 6 ]).
Qed.

(** *** The invariant of reachable states *)

Lemma connect_try_throws_keeps (st : State W) e st' :
  connect_try st = (inl e, st') ->
  connected (self st') = connected (self st)
  /\ config (self st') = config (self st).
Proof.
  intros Htry.
  pose proof (connect_launch_keeps_flag st) as Hflag.
  pose proof (connect_launch_keeps_config st) as Hcfg.
  unfold keeps in Hflag, Hcfg.
  destruct (connect_try_throws _ Htry) as [Hl | (u & pw & em & s1 & Hl & Hlogin)];
    rewrite Hl in Hflag, Hcfg; simpl in Hflag, Hcfg.
  - now split.
  - pose proof (browserLogin_keeps_self u pw em s1) as Hsame.
    unfold keeps, id in Hsame. rewrite Hlogin in Hsame; simpl in Hsame.
    rewrite Hsame. now split.
Qed.

Lemma connect_consistent identity (st : State W) :
  consistent st -> consistent (snd (connect identity st)).
Proof.
  intros [Hbp Hidle].
  destruct (entering_keeps identity st) as (Ec & Eb & Ep & Econn & _ & _).
  destruct (connect identity st) as [[e | []] st'] eqn:Hrun; simpl.
  - destruct (connect_throws _ _ Hrun) as (s1 & Htry & ->).
    destruct (connect_try_throws_keeps _ Htry) as [Hflag Hcfg].
    destruct (browser (self s1)) as [b |] eqn:Hb1.
    + destruct (connect_failed_closes e _ Hb1) as (Hself & _).
      unfold consistent. rewrite Hself; simpl.
      split; [tauto |]. intros Hno. split; [reflexivity |].
      rewrite Hflag, Econn. apply Hidle. congruence.
    + unfold consistent.
      rewrite (connect_failed_idle e _ Hb1); simpl.
      rewrite (connect_try_throws_idle _ Htry Hb1), Eb, Ep, Econn, Ec.
      now split.
  - destruct (connect_returns _ _ Hrun) as (Hconn & [b Hb] & [p Hp] & Hhas).
    pose proof (connect_keeps_config identity st) as Hcfg.
    unfold keeps in Hcfg. rewrite Hrun in Hcfg; simpl in Hcfg.
    unfold consistent. rewrite Hb, Hp, Hcfg.
    split; [split; discriminate | congruence].
Qed.

Lemma disconnect_consistent (st : State W) :
  consistent st -> consistent (snd (disconnect st)).
Proof.
  intros [Hbp Hidle].
  destruct (connected (self st)) eqn:Hc.
  - destruct (disconnect_connected _ Hc) as (_ & Hflag & Hb & Hp).
    unfold consistent. rewrite Hflag, Hb.
    split; [| intros _; now split].
    destruct Hp as [-> | [Hb0 ->]]; [tauto |].
    split; [intros _; now apply Hbp | reflexivity].
  - rewrite (disconnect_idle _ Hc); simpl.
    unfold consistent; rewrite Hc. now split.
Qed.

Lemma consistent_same_self (st st' : State W) :
  self st' = self st -> consistent st -> consistent st'.
Proof. unfold consistent; intros ->; exact (fun H => H). Qed.

Theorem reachable_consistent (st : State W) : reachable st -> consistent st.
Proof.
  induction 1 as [cfg w | w st _ IH | identity st _ IH | st _ IH
                  | content replyToId st _ IH | tweetId st _ IH
                  | tweetId st _ IH | username st _ IH | st _ IH].
  - split; [split; reflexivity | split; reflexivity].
  - exact IH.
  - now apply connect_consistent.
  - now apply disconnect_consistent.
  - exact (consistent_same_self _ (tweet_keeps_self content replyToId st) IH).
  - exact (consistent_same_self _ (like_keeps_self tweetId st) IH).
  - exact (consistent_same_self _ (retweet_keeps_self tweetId st) IH).
  - exact (consistent_same_self _ (follow_keeps_self username st) IH).
  - exact (consistent_same_self _ (checkForTweets_keeps_self st) IH).
Qed.

End Lifecycle.

(** ** Configuration and connection guards *)

Section Guards.

Context {W : Type} {E : Environment W}.

(** C6. For every connector whose configuration lacks a username or
    lacks a password, [connect] fails with the configuration error
    (the [Error] "Twitter username and password are required") and makes
    no call to the browser dependency: the trace of requests and the
    world are left exactly as they were. *)
Theorem connect_without_credentials identity (st : State W) :
  reachable st ->
  truthy_str (username (config (self st))) = false
  \/ truthy_str (password (config (self st))) = false ->
  fst (connect identity st) = inl missing_credentials
  /\ trace (snd (connect identity st)) = trace st
  /\ world (snd (connect identity st)) = world st.
Proof.
  intros Hreach Hlack.
  assert (Hc : has_credentials (config (self st)) = false).
  { unfold has_credentials. destruct Hlack as [-> | ->];
      [reflexivity | apply andb_false_r]. }
  destruct (reachable_consistent Hreach) as [_ Hidle].
  destruct (Hidle Hc) as [Hb _].
  rewrite (connect_refused identity _ Hc Hb). now repeat split.
Qed.

(** C9. For every content string and optional parentId, [tweet] invoked
    while [connected] is false fails with the not-connected error (the
    [Error] "Not connected to Twitter") and leaves the whole state as it
    was: no browser request, in particular no navigation, is made. *)
Theorem tweet_not_connected content replyToId (st : State W) :
  connected (self st) = false ->
  tweet content replyToId st = (inl (Error "Not connected to Twitter"), st).
Proof.
  intros Hc. unfold tweet, bind, this; simpl. now rewrite Hc.
Qed.

End Guards.

(** C6 at a connector constructed without credentials. *)
Lemma connect_without_credentials_witness :
  reachable (fresh no_credentials quiet_site)
  /\ (truthy_str (username (config (self (fresh no_credentials quiet_site)))) = false
      \/ truthy_str (password (config (self (fresh no_credentials quiet_site)))) = false)
  /\ fst (connect (inl 0%nat) (fresh no_credentials quiet_site)) = inl missing_credentials
  /\ trace (snd (connect (inl 0%nat) (fresh no_credentials quiet_site))) = []
  /\ world (snd (connect (inl 0%nat) (fresh no_credentials quiet_site))) = quiet_site.
Proof.
  split; [apply reach_new |].
  split; [left; reflexivity |].
  apply (connect_without_credentials (inl 0%nat)
           (reach_new no_credentials quiet_site) (or_introl eq_refl)).
Defined.

(** C9 at a connector that never connected. *)
Lemma tweet_not_connected_witness :
  connected (self (fresh (credentials None) quiet_site)) = false
  /\ tweet "hello" (Some "42") (fresh (credentials None) quiet_site)
     = (inl (Error "Not connected to Twitter"), fresh (credentials None) quiet_site).
Proof.
  split; [reflexivity |].
  apply (tweet_not_connected "hello" (Some "42")
           (fresh (credentials None) quiet_site) eq_refl).
Defined.

(** ** Failure of connect *)

Section ConnectFailure.

Context {W : Type} {E : Environment W}.

(** After a failed [connect] on a reachable connector no handle is
    held; the [connected] flag is whatever it was before the call. *)
Lemma connect_throws_state identity (st : State W) e st' :
  reachable st ->
  connect identity st = (inl e, st') ->
  browser (self st') = None
  /\ page (self st') = None
  /\ connected (self st') = connected (self st).
Proof.
  intros Hreach Hrun.
  destruct (reachable_consistent Hreach) as [Hbp _].
  destruct (entering_keeps identity st) as (_ & Eb & Ep & Econn & _ & _).
  destruct (connect_throws _ _ Hrun) as (s1 & Htry & ->).
  destruct (connect_try_throws_keeps _ Htry) as [Hflag _].
  destruct (browser (self s1)) as [b |] eqn:Hb1.
  - destruct (connect_failed_closes e _ Hb1) as (Hself & _).
    rewrite Hself; simpl. repeat split. congruence.
  - rewrite (connect_failed_idle e _ Hb1); simpl.
    pose proof (connect_try_throws_idle _ Htry Hb1) as Hs.
    rewrite Hs in Hb1 |- *. rewrite Eb in Hb1. rewrite Eb, Ep, Econn.
    split; [exact Hb1 |]. split; [now apply Hbp | reflexivity].
Qed.



End ConnectFailure.



(** C4 fails on a connector that is already connected.  A connector
    connects, the browser then cannot be launched any more, and [connect]
    is called again: it throws, both handles are dropped, but the
    [connected] flag is still set. *)
Theorem failed_reconnect_stays_connected :
  let st1 := snd (connect (inl 0%nat) (fresh (credentials None) quiet_site)) in
  let st2 := snd (connect (inl 0%nat) (facing offline_site st1)) in
  reachable (facing offline_site st1)
  /\ connected (self st1) = true
  /\ fst (connect (inl 0%nat) (facing offline_site st1)) = inl launch_failure
  /\ connected (self st2) = true
  /\ browser (self st2) = None
  /\ page (self st2) = None.
Proof.
  split; [apply reach_world, reach_connect, reach_new |].
  repeat split; vm_compute; reflexivity.
Qed.

(** ** The constructor's defaults *)

Section Defaults.

Context {W : Type} {E : Environment W}.

(** C3, as the code has it. The constructed [pollInterval] is always set
    and never zero: an absent or zero value becomes 60000, any other
    value, negative ones included, is kept as it is; it is positive
    exactly when the value passed was absent or not negative.
    [setupMonitoring] on the constructed connector arms the timer with
    that very value: the default it applies again has no effect. *)
Theorem constructor_pollInterval cfg (w : W) :
  exists n,
    pollInterval (config (constructor cfg)) = Some n
    /\ n <> 0
    /\ (pollInterval cfg = None \/ pollInterval cfg = Some 0 -> n = 60000)
    /\ (forall m, pollInterval cfg = Some m -> m <> 0 -> n = m)
    /\ (0 < n <-> forall m, pollInterval cfg = Some m -> 0 <= m)
    /\ trace (snd (setupMonitoring (fresh cfg w))) = [TimerArmed n]
    /\ monitorInterval (self (snd (setupMonitoring (fresh cfg w)))) = Some n.
Proof.
  destruct cfg as [u pw em kw us ar [m |] hl dbg]; simpl.
  - destruct (Z.eqb_spec m 0) as [-> | Hm].
    + exists 60000. simpl. repeat split; try lia; try reflexivity.
      * intros k [= <-] Hk. lia.
      * intros _ k [= <-]. lia.
    + exists m. unfold setupMonitoring, bind, this, log, emit, update; simpl.
      destruct (Z.eqb_spec m 0) as [-> | _]; [lia |].
      repeat split; try assumption; try reflexivity.
      * intros [H | H]; [discriminate | injection H as ->; lia].
      * intros k [= <-] _. reflexivity.
      * intros Hpos k [= <-]. lia.
      * intros H. specialize (H m eq_refl). lia.
  - exists 60000. simpl. repeat split; try lia; try reflexivity.
    + intros k H. discriminate.
    + intros _ k H. discriminate.
Qed.

End Defaults.

(** C3 as stated fails: a negative [pollInterval] is kept by the
    constructor, so the constructed value is not positive. *)
Lemma constructor_keeps_negative_pollInterval :
  pollInterval
    (config (constructor
               (mkConfig (Some "alice") (Some "secret") None None None None
                         (Some (-5)) None None)))
  = Some (-5)
  /\ ~ 0 < -5.
Proof. split; [reflexivity | lia]. Qed.

(** ** What tweet returns *)

Section TweetResult.

Context {W : Type} {E : Environment W}.

Lemma tweet_failed_throws p error (st : State W) :
  exists e, fst (tweet_failed p error st) = inl e.
Proof.
  unfold tweet_failed, debug_screenshot, screenshot, perform, bind, this,
    log, throw, ret; simpl.
  destruct (debug_on (self st)); simpl; [| now exists error].
  destruct (respond (Screenshot p "twitter-tweet-error.png") (world st))
    as [[e | []] w]; simpl; eauto.
Qed.

(** What the [try] block of [tweet] returns when it returns. *)
Lemma tweet_try_result p content replyToId (st : State W) r st' :
  tweet_try p content replyToId st = (inr r, st') ->
  r = match replyToId with
      | Some (String _ _ as parentId) => "reply_to_" ++ parentId ++ "_posted"
      | _ => "tweet_posted_" ++ show_number (clock (world st))
      end%string.
Proof.
  unfold tweet_try, bind, now; simpl.
  destruct replyToId as [[| a parentId] |].
  - destruct (postTweetWithBrowser content st) as [[e | []] s1];
      [discriminate |].
    unfold debug_screenshot, screenshot, perform, bind, this, log, ret; simpl.
    destruct (debug_on (self s1)); simpl; [| now intros [= <- _]].
    destruct (respond (Screenshot p "twitter-tweet-success.png") (world s1))
      as [[e | []] w]; simpl; [discriminate | now intros [= <- _]].
  - destruct (postReplyWithBrowser content (String a parentId) st)
      as [[e | []] s1]; [discriminate |].
    unfold bind, log, ret; simpl. now intros [= <- _].
  - destruct (postTweetWithBrowser content st) as [[e | []] s1];
      [discriminate |].
    unfold debug_screenshot, screenshot, perform, bind, this, log, ret; simpl.
    destruct (debug_on (self s1)); simpl; [| now intros [= <- _]].
    destruct (respond (Screenshot p "twitter-tweet-success.png") (world s1))
      as [[e | []] w]; simpl; [discriminate | now intros [= <- _]].
Qed.

(** C8, as the code has it. Whenever [tweet] returns: with a non-empty
    parentId the result is exactly [reply_to_<parentId>_posted]; with no
    parentId, or an empty one, it is [tweet_posted_] followed by the
    decimal rendering of the clock read when the call started. *)
Theorem tweet_result content replyToId (st : State W) r :
  fst (tweet content replyToId st) = inr r ->
  r = match replyToId with
      | Some (String _ _ as parentId) => "reply_to_" ++ parentId ++ "_posted"
      | _ => "tweet_posted_" ++ show_number (clock (world st))
      end%string.
Proof.
  unfold tweet, bind, this; simpl.
  destruct (connected (self st)); [| discriminate].
  destruct (page (self st)) as [p |]; [| discriminate].
  destruct (browser (self st)) as [b |]; [| discriminate].
  unfold try_catch.
  match goal with
  | |- context [tweet_try p content replyToId ?s] =>
      destruct (tweet_try p content replyToId s) as [[e | r'] s2] eqn:Htry
  end.
  - destruct (tweet_failed_throws p e s2) as [e' He'].
    rewrite He'. discriminate.
  - simpl. intros [= <-]. exact (tweet_try_result _ _ _ _ Htry).
Qed.

End TweetResult.

(** C8 at a reply on a connected connector. *)
Lemma tweet_result_witness :
  fst (tweet "hello" (Some "42")
         (snd (connect (inl 0%nat) (fresh (credentials None) timeline_site))))
  = inr "reply_to_42_posted"
  /\ "reply_to_42_posted" = ("reply_to_" ++ "42" ++ "_posted")%string.
Proof.
  assert (Hreply :
    fst (tweet "hello" (Some "42")
           (snd (connect (inl 0%nat) (fresh (credentials None) timeline_site))))
    = inr "reply_to_42_posted") by (vm_compute; reflexivity).
  split; [exact Hreply |].
  exact (tweet_result "hello" (Some "42") _ Hreply).
Defined.

(** C8 as stated fails at the empty parentId: the call takes the new-post
    path and returns a [tweet_posted_] identifier, not [reply_to__posted]. *)
Lemma tweet_with_empty_parentId :
  fst (tweet "hello" (Some "")
         (snd (connect (inl 0%nat) (fresh (credentials None) timeline_site))))
  = inr "tweet_posted_1700000000000"
  /\ "tweet_posted_1700000000000" <> ("reply_to_" ++ "" ++ "_posted")%string.
Proof. split; [vm_compute; reflexivity | discriminate]. Qed.

(** ** The procedures of the source against the reference procedures *)

(** One turn of a walk: case analysis on what the environment answers,
    then the rest of the walk by induction. *)
Ltac walk_cases :=
  repeat (cbv beta iota zeta delta [self world trace logs fst snd];
          first
            [ match goal with
              | |- context [match ?a with Some _ => _ | None => _ end] =>
                  is_var a; destruct a
              | |- context [if ?a then _ else _] => is_var a; destruct a
              end
            | match goal with
              | |- context [if ?a then _ else _] => destruct a
              end
            | match goal with
              | |- context [respond ?c ?w] =>
                  destruct (respond c w) as [[? | ?] ?]
              end ]).

Ltac walk_rest IH :=
  simpl;
  try match goal with
      | |- context [for_of _ _ (mkState ?c ?w ?tr ?lg)] =>
          let lg' := fresh "lg" in
          let Hrest := fresh "Hrest" in
          destruct (IH c w tr lg) as [lg' Hrest]; rewrite Hrest; simpl
      end;
  try match goal with
      | |- context [later _ ?r] => destruct r as [[? ?] ?]
      end;
  simpl; eexists; rewrite <- ?app_assoc; reflexivity.

(** A walk, by induction on the list walked. *)
Ltac walk_induction :=
  let xs := fresh "xs" in
  let x := fresh "x" in
  let rest := fresh "rest" in
  let IH := fresh "IH" in
  let body := fresh "body" in
  intros xs;
  match goal with |- context [for_of ?b xs] => set (body := b) end;
  induction xs as [| x rest IH]; intros ? ? ? ?;
  [ eexists; simpl; now rewrite app_nil_r
  | cbn [for_of button_walk textarea_walk button_scan];
    unfold bind at 1; unfold body at 1;
    unfold try_catch, query, textContent, isDisabled, click, type_element,
      perform, sleep, bind, log, ret;
    walk_cases; walk_rest IH ].

Section Refinement.

Context {W : Type} {E : Environment W}.

Local Abbreviation M := (M W).

(** What a walk has to show. *)
Lemma refines_walk {X} (body : X -> M bool)
    (reference : list X -> W -> bool * W * list event) xs :
  (forall xs c w tr lg, exists lg',
      for_of body xs (mkState c w tr lg)
      = (inr (fst (fst (reference xs w))),
         mkState c (snd (fst (reference xs w))) (tr ++ snd (reference xs w)) lg')) ->
  refines (for_of body xs) (fun w => answers (reference xs w)).
Proof.
  intros H [c w tr lg]. destruct (H xs c w tr lg) as [lg' ->]. unfold answers.
  simpl. destruct (reference xs w) as [[hit w'] l]. simpl. auto.
Qed.

Lemma reply_typeInTextarea_refined content p :
  refines (reply_typeInTextarea content p)
          (fun w => answers (textarea_walk p content replyTextareaSelectors w)).
Proof.
  unfold reply_typeInTextarea.
  apply (refines_walk _ (textarea_walk p content)). walk_induction.
Qed.

Lemma reply_submitBySelector_refined p :
  refines (reply_submitBySelector p)
          (fun w => answers (button_walk p replyTweetButtonSelectors w)).
Proof.
  unfold reply_submitBySelector.
  apply (refines_walk _ (button_walk p)). walk_induction.
Qed.

Lemma post_submitBySelector_refined p :
  refines (post_submitBySelector p)
          (fun w => answers (button_walk p tweetButtonSelectors w)).
Proof.
  unfold post_submitBySelector.
  apply (refines_walk _ (button_walk p)). walk_induction.
Qed.

(** What a scan of the button-like elements has to show. *)
Lemma refines_scan checked wanted p (body : ElementHandle -> M bool) l1 l2 :
  (forall xs c w tr lg, exists lg',
      for_of body xs (mkState c w tr lg)
      = (inr (fst (fst (button_scan checked wanted p xs w))),
         mkState c (snd (fst (button_scan checked wanted p xs w)))
                 (tr ++ snd (button_scan checked wanted p xs w)) lg')) ->
  refines
    (log LDebug l1 ;;
     try_catch (buttons <- query_all p buttonLike ;; for_of body buttons)
               (fun _ => log LDebug l2 ;; ret false))
    (fun w => answers (text_scan checked wanted p w)).
Proof.
  intros H [c w tr lg].
  unfold text_scan, try_catch, query_all, perform, bind, log, ret, answers.
  cbv beta iota zeta delta [self world trace logs].
  destruct (respond (QueryAll p buttonLike) w) as [[e | buttons] w1].
  - simpl. auto.
  - destruct (H buttons c w1 (tr ++ [Called (QueryAll p buttonLike)])
                (lg ++ [(LDebug, l1)])) as [lg' ->].
    destruct (button_scan checked wanted p buttons w1) as [[hit w2] l].
    simpl. rewrite <- app_assoc. auto.
Qed.

Lemma reply_submitByText_refined p :
  refines (reply_submitByText p)
          (fun w => answers
             (text_scan false
                (fun text => includes "Reply" text || includes "Tweet" text) p w)).
Proof.
  unfold reply_submitByText. apply refines_scan. walk_induction.
Qed.

Lemma post_submitByText_refined p :
  refines (post_submitByText p)
          (fun w => answers
             (text_scan true
                (fun text => includes "Tweet" text || includes "Post" text) p w)).
Proof.
  unfold post_submitByText. apply refines_scan. walk_induction.
Qed.

Lemma post_submitByScript_refined p :
  refines (post_submitByScript p) (fun w => answers (page_script p w)).
Proof.
  intros [c w tr lg].
  unfold post_submitByScript, page_script, try_catch, clickScript, perform,
    bind, log, ret, answers.
  cbv beta iota zeta delta [self world trace logs].
  destruct (respond (ClickScript p) w) as [[e | [|]] w1]; simpl; auto.
Qed.

(** Refinement as one equation, log apart. *)
Lemma refines_run {A} (m : M A) reference :
  (forall st, exists lg,
      m st = (fst (fst (reference (world st))),
              mkState (self st) (snd (fst (reference (world st))))
                      (trace st ++ snd (reference (world st))) lg)) ->
  refines m reference.
Proof. intros H st. destruct (H st) as [lg ->]. simpl. auto. Qed.

Lemma refines_runs {A} (m : M A) reference :
  refines m reference ->
  forall st, exists lg,
    m st = (fst (fst (reference (world st))),
            mkState (self st) (snd (fst (reference (world st))))
                    (trace st ++ snd (reference (world st))) lg).
Proof.
  intros H st. destruct (H st) as (Hr & Hw & Ht & Hs).
  destruct (m st) as [r [c w tr lg]]. simpl in *. subst. now exists lg.
Qed.

(** A stage of a chain has run as its reference says. *)
Ltac stage_ran H :=
  match goal with
  | |- context [bind _ _ ?s] =>
      let lg := fresh "lg" in
      let Hrun := fresh "Hrun" in
      destruct (refines_runs H s) as [lg Hrun];
      cbv beta iota zeta delta [self world trace logs answers] in Hrun;
      match type of Hrun with
      | context [let '(_, _) := ?run in _] => destruct run as [[[|] ?] ?]
      end;
      cbv beta iota zeta delta [fst snd] in Hrun;
      rewrite (bind_returns _ _ _ Hrun); clear Hrun;
      cbv beta iota zeta delta [later or_press_enter or_type]
  end.

Ltac chain_ends :=
  unfold keyboard_press, keyboard_type, perform, bind, log, ret;
  cbv beta iota zeta delta [self world trace logs];
  try match goal with
      | |- context [respond ?c ?w] => destruct (respond c w) as [[? | []] ?]
      end;
  eexists; rewrite ?app_nil_r, <- ?app_assoc; reflexivity.

(** Chains of two and of three stages that end with the Enter key, and
    the chain of one stage that ends with the raw keyboard. *)
Lemma refines_two_stages p (m1 m2 : M bool) stage1 stage2 message :
  refines m1 (fun w => answers (stage1 w)) ->
  refines m2 (fun w => answers (stage2 w)) ->
  refines
    (clicked <- m1 ;;
     clicked <- (if clicked then ret true else m2) ;;
     if clicked then ret tt
     else log LDebug message ;; keyboard_press p "Enter")
    (fun w => or_press_enter p (first_success [stage1; stage2] w)).
Proof.
  intros H1 H2. apply refines_run. intros [c w tr lg].
  unfold first_success. cbv beta iota zeta delta [self world trace logs].
  stage_ran H1; [chain_ends |].
  stage_ran H2; chain_ends.
Qed.

Lemma refines_three_stages p (m1 m2 m3 : M bool) stage1 stage2 stage3 message :
  refines m1 (fun w => answers (stage1 w)) ->
  refines m2 (fun w => answers (stage2 w)) ->
  refines m3 (fun w => answers (stage3 w)) ->
  refines
    (clicked <- m1 ;;
     clicked <- (if clicked then ret true else m2) ;;
     clicked <- (if clicked then ret true else m3) ;;
     if clicked then ret tt
     else log LDebug message ;; keyboard_press p "Enter")
    (fun w => or_press_enter p (first_success [stage1; stage2; stage3] w)).
Proof.
  intros H1 H2 H3. apply refines_run. intros [c w tr lg].
  unfold first_success. cbv beta iota zeta delta [self world trace logs].
  stage_ran H1; [chain_ends |].
  stage_ran H2; [chain_ends |].
  stage_ran H3; chain_ends.
Qed.

Lemma refines_one_stage p content (m1 : M bool) stage1 message error :
  refines m1 (fun w => answers (stage1 w)) ->
  refines
    (found <-
       (found <- m1 ;;
        if found then ret true
        else log LDebug message ;; keyboard_type p content ;; ret true) ;;
     if found then ret tt else throw error)
    (fun w => or_type p content (first_success [stage1] w)).
Proof.
  intros H1. apply refines_run. intros [c w tr lg].
  unfold first_success. cbv beta iota zeta delta [self world trace logs].
  unfold bind at 1.
  stage_ran H1; chain_ends.
Qed.

Lemma reply_submit_refined p : refines (reply_submit p) (reply_submit_chain p).
Proof.
  unfold reply_submit, reply_submit_chain.
  apply refines_two_stages;
    [apply reply_submitBySelector_refined | apply reply_submitByText_refined].
Qed.

Lemma post_submit_refined p : refines (post_submit p) (post_submit_chain p).
Proof.
  unfold post_submit, post_submit_chain.
  apply refines_three_stages;
    [ apply post_submitBySelector_refined | apply post_submitByText_refined
    | apply post_submitByScript_refined ].
Qed.

Lemma reply_locateComposer_refined content p :
  refines (reply_locateComposer content p) (reply_composer_chain content p).
Proof.
  unfold reply_locateComposer, reply_enterContent, reply_composer_chain.
  apply refines_one_stage, reply_typeInTextarea_refined.
Qed.

End Refinement.

(** ** Loops that swallow their errors *)

Section Swallowing.

Context {W : Type} {E : Environment W}.

Local Abbreviation M := (M W).

(** A loop whose body always returns always returns. *)
Lemma for_of_returns {X} (body : X -> M bool) xs :
  (forall x st, exists b, fst (body x st) = inr b) ->
  forall st, exists b, fst (for_of body xs st) = inr b.
Proof.
  intros Hbody. induction xs as [| x rest IH]; intros st; simpl.
  - now exists false.
  - unfold bind. destruct (Hbody x st) as [b Hb].
    destruct (body x st) as [r s1]; simpl in Hb; subst r.
    destruct b; [now exists true | apply IH].
Qed.

(** A [try] whose handler always returns always returns. *)
Lemma try_catch_returns {A} (m : M A) h :
  (forall e st, exists a, fst (h e st) = inr a) ->
  forall st, exists a, fst (try_catch m h st) = inr a.
Proof.
  intros Hh st. unfold try_catch.
  destruct (m st) as [[e | a] s1]; [apply Hh | now exists a].
Qed.

Lemma reply_typeInTextarea_returns content p (st : State W) :
  exists found, fst (reply_typeInTextarea content p st) = inr found.
Proof.
  unfold reply_typeInTextarea. apply for_of_returns.
  intros selector s. apply try_catch_returns.
  intros e s'. now exists false.
Qed.

(** C10, as the code has it. In the reply path the composer-location
    stage cannot end in its own error branch.  When the check of line 796
    reads [textareaFound] the flag is always true, so the stage with the
    check runs exactly like the stage without it.  What the stage does is
    this: it walks through the textarea selectors; when one of them
    worked it returns at once; when none did, the content is typed on
    the raw keyboard, one request, and the stage ends as that request
    does, returning when it is accepted and throwing its rejection when
    it is not.  So the stage can fail, but only with the rejection of
    the raw keyboard typing, never through the "Could not find or use
    reply textarea" branch. *)
Theorem reply_composer_check_never_fires content p (st : State W) :
  (forall found st',
      reply_enterContent content p st = (inr found, st') -> found = true)
  /\ reply_locateComposer content p st
     = bind (reply_enterContent content p) (fun _ => ret tt) st
  /\ (forall e st',
        reply_locateComposer content p st = (inl e, st') ->
        exists s1,
          reply_typeInTextarea content p st = (inr false, s1)
          /\ respond (KeyType p content) (world s1) = (inl e, world st'))
  /\ (exists found s1,
        reply_typeInTextarea content p st = (inr found, s1)
        /\ (found, world s1)
           = fst (textarea_walk p content replyTextareaSelectors (world st))
        /\ trace s1
           = trace st ++ snd (textarea_walk p content replyTextareaSelectors (world st))
        /\ if found
           then reply_locateComposer content p st = (inr tt, s1)
           else fst (reply_locateComposer content p st)
                = fst (respond (KeyType p content) (world s1))
                /\ world (snd (reply_locateComposer content p st))
                   = snd (respond (KeyType p content) (world s1))
                /\ trace (snd (reply_locateComposer content p st))
                   = trace s1 ++ [Called (KeyType p content)]).
Proof.
  destruct (reply_typeInTextarea_refined content p st) as (Hr & Hw & Ht & _).
  cbv beta in Hr, Hw, Ht. unfold answers in Hr, Hw, Ht.
  unfold reply_locateComposer, reply_enterContent, keyboard_type, perform,
    bind, log, ret, throw.
  destruct (reply_typeInTextarea content p st) as [r s1].
  destruct (textarea_walk p content replyTextareaSelectors (world st))
    as [[found w1] l1].
  simpl in Hr, Hw, Ht; subst r w1; simpl.
  destruct found; simpl.
  - split; [intros found st' H; now injection H as <- _ |].
    split; [reflexivity |].
    split; [intros e st' H; discriminate H |].
    exists true, s1. repeat split; try reflexivity; exact Ht.
  - destruct (respond (KeyType p content) (world s1)) as [[e | []] w] eqn:Hkey;
      simpl.
    + split; [intros found st' H; discriminate H |]. split; [reflexivity |].
      split; [intros e' st' H; injection H as <- <-; exists s1; now split |].
      exists false, s1. rewrite Hkey. repeat split; try reflexivity; exact Ht.
    + split; [intros found st' H; now injection H as <- _ |].
      split; [reflexivity |].
      split; [intros e st' H; discriminate H |].
      exists false, s1. rewrite Hkey. repeat split; try reflexivity; exact Ht.
Qed.

End Swallowing.

(** C10 as stated fails: the stage can fail.  On a status page where the
    reply button is found but no textarea selector matches, and typing
    on the raw keyboard is rejected, the composer-location stage throws
    the rejection, and so does [tweet]; the error is not the one of the
    unreachable branch. *)
Lemma reply_composer_stage_can_fail :
  connected
    (self (snd (connect (inl 0%nat) (fresh (credentials None) typing_dead_site))))
  = true
  /\ fst (reply_typeInTextarea "hello" 1%nat
            (snd (connect (inl 0%nat) (fresh (credentials None) typing_dead_site))))
     = inr false
  /\ fst (reply_locateComposer "hello" 1%nat
            (snd (connect (inl 0%nat) (fresh (credentials None) typing_dead_site))))
     = inl typing_failure
  /\ fst (tweet "hello" (Some "12345")
            (snd (connect (inl 0%nat) (fresh (credentials None) typing_dead_site))))
     = inl typing_failure
  /\ typing_failure <> Error "Could not find or use reply textarea".
Proof.
  repeat split; try (vm_compute; reflexivity). discriminate.
Qed.

(** ** The verification step of the login procedure *)

Section VerifySuccess.

Context {W : Type} {E : Environment W}.

Local Abbreviation M := (M W).

(** One turn of the verification loop queries its selector once and
    always returns; a rejected query counts as no match. *)
Lemma login_probe_runs p selector (st : State W) :
  exists found,
    fst (login_probe p selector st) = inr found
    /\ trace (snd (login_probe p selector st))
       = trace st ++ [Called (Query p selector)].
Proof.
  unfold login_probe, try_catch, bind, query, perform, log, ret.
  destruct (respond (Query p selector) (world st)) as [[e | [el |]] w]; simpl;
    eauto.
Qed.

(** The selectors are queried in list order, and the loop stops at the
    first one that yields an element. *)
Lemma indicators_in_order p sels (st : State W) :
  exists n found,
    fst (for_of (login_probe p) sels st) = inr found
    /\ trace (snd (for_of (login_probe p) sels st))
       = trace st ++ map (fun selector => Called (Query p selector)) (firstn n sels)
    /\ (found = false -> n = length sels).
Proof.
  revert st. induction sels as [| selector rest IH]; intros st.
  - exists 0%nat, false. simpl. now rewrite app_nil_r.
  - simpl. unfold bind.
    destruct (login_probe_runs p selector st) as (found & Hf & Ht).
    destruct (login_probe p selector st) as [r s1]; simpl in Hf, Ht; subst r.
    destruct found.
    + exists 1%nat, true. simpl. repeat split; [exact Ht | discriminate].
    + destruct (IH s1) as (n & found & H1 & H2 & H3).
      exists (S n), found. split; [exact H1 |]. split.
      * rewrite H2, Ht, <- app_assoc. reflexivity.
      * intros Hfalse. simpl. now rewrite (H3 Hfalse).
Qed.

(** What the verification step does once no indicator was found. *)
Lemma login_verifySuccess_unverified p (s1 s2 : State W) (currentUrl : string) :
  login_findIndicator p s1 = (inr false, s2) ->
  fst (respond (Url p) (world s2)) = inr currentUrl ->
  login_verifySuccess p s1 =
    ((if includes "login" currentUrl || includes "signin" currentUrl
      then inl still_on_login_page else inr tt),
     mkState (self s2) (snd (respond (Url p) (world s2)))
             (trace s2 ++ [Called (Url p)])
             (logs s2
              ++ (LWarn, "Could not verify successful login by finding timeline elements")
                 :: if includes "login" currentUrl || includes "signin" currentUrl
                    then []
                    else [(LInfo, "Proceeding anyway as we navigated away from login page")])).
Proof.
  intros Hfind Hurl.
  unfold login_verifySuccess.
  rewrite bind_returns with (a:=false) (st':=s2) by exact Hfind.
  unfold url, perform, bind, log, throw, ret; simpl.
  destruct (respond (Url p) (world s2)) as [[e | u] w]; simpl in *;
    [discriminate |].
  injection Hurl as ->.
  destruct (includes "login" currentUrl || includes "signin" currentUrl); simpl;
    [reflexivity |].
  now rewrite <- app_assoc.
Qed.

(** An error of the login flow reaches the caller of [connect] wrapped,
    unless debug mode's error screenshot is rejected on the way. *)
Lemma connect_login_error identity (st : State W) u pw em s0 p e0 s3 :
  connect_launch (entering identity st) = (inr (u, pw, em), s0) ->
  page (self s0) = Some p ->
  login_flow p u pw em s0 = (inl e0, s3) ->
  debug_on (self s3) = false
  \/ fst (respond (Screenshot p "twitter-login-error.png") (world s3)) = inr tt ->
  fst (connect identity st)
  = inl (Error ("Twitter login failed: " ++ error_text e0)%string).
Proof.
  intros Hl Hp Hflow Hshot.
  assert (Hlogin : exists s4,
    browserLogin u pw em s0
    = (inl (Error ("Twitter login failed: " ++ error_text e0)%string), s4)).
  { unfold browserLogin, require_page, bind, this; simpl. rewrite Hp.
    unfold ret at 1. rewrite (try_throws _ _ _ Hflow).
    unfold login_failed, debug_screenshot, screenshot, perform, bind, this, log,
      throw, ret; simpl.
    destruct (debug_on (self s3)); simpl; [| eauto].
    destruct Hshot as [Hd | Hshot]; [discriminate |].
    destruct (respond (Screenshot p "twitter-login-error.png") (world s3))
      as [[e | []] w]; simpl in *; [discriminate | eauto]. }
  destruct Hlogin as [s4 Hlogin].
  unfold connect.
  rewrite bind_returns with (a:=tt) (st':=entering identity st)
    by apply connect_identity_returns.
  assert (Htry : connect_try (entering identity st)
                 = (inl (Error ("Twitter login failed: " ++ error_text e0)%string), s4)).
  { unfold connect_try. rewrite (bind_returns _ _ _ Hl).
    now rewrite (bind_throws _ _ _ Hlogin). }
  rewrite (try_throws _ _ _ Htry). apply connect_failed_throws.
Qed.

(** When the login flow returns, [connect] returns. *)
Lemma connect_login_returns identity (st : State W) u pw em s0 p s4 :
  connect_launch (entering identity st) = (inr (u, pw, em), s0) ->
  page (self s0) = Some p ->
  login_flow p u pw em s0 = (inr tt, s4) ->
  fst (connect identity st) = inr tt.
Proof.
  intros Hl Hp Hflow.
  unfold connect.
  rewrite bind_returns with (a:=tt) (st':=entering identity st)
    by apply connect_identity_returns.
  assert (Hlogin : browserLogin u pw em s0 = (inr tt, s4)).
  { unfold browserLogin, require_page, bind, this; simpl. rewrite Hp.
    unfold ret at 1. now rewrite (try_returns _ _ _ Hflow). }
  destruct (connect_finish_returns s4) as [Hfin _].
  destruct (connect_finish s4) as [r s5] eqn:Hfinish; simpl in Hfin; subst r.
  assert (Htry : connect_try (entering identity st) = (inr tt, s5)).
  { unfold connect_try. rewrite (bind_returns _ _ _ Hl).
    now rewrite (bind_returns _ _ _ Hlogin). }
  now rewrite (try_returns _ _ _ Htry).
Qed.

(** C5, as the code has it. Suppose [connect] has reached the
    verification step ([s1]), none of the success indicators matched
    ([s2]) and the browser reports [currentUrl].  Then the four selectors
    were queried in the order of the list, and:
    - if [currentUrl] contains "login" or "signin", the step throws
      "Login failed - still on login page", and [connect] fails with the
      [Error] "Twitter login failed: Login failed - still on login page",
      provided that the error screenshot of debug mode, if one is taken,
      is not rejected;
    - otherwise the step returns after a warning and an info line, and if
      the navigation home then succeeds, [connect] returns with
      [connected] set. *)
Theorem verification_step identity (st : State W) u pw em s0 p s1 s2
    (currentUrl : string) :
  connect_launch (entering identity st) = (inr (u, pw, em), s0) ->
  page (self s0) = Some p ->
  login_reachVerify p u pw em s0 = (inr tt, s1) ->
  login_findIndicator p s1 = (inr false, s2) ->
  fst (respond (Url p) (world s2)) = inr currentUrl ->
  trace s2 = trace s1 ++ map (fun selector => Called (Query p selector)) successIndicators
  /\ (includes "login" currentUrl || includes "signin" currentUrl = true ->
      fst (login_verifySuccess p s1) = inl still_on_login_page
      /\ (debug_on (self s2) = false
          \/ fst (respond (Screenshot p "twitter-login-error.png")
                          (snd (respond (Url p) (world s2)))) = inr tt ->
          fst (connect identity st)
          = inl (Error "Twitter login failed: Login failed - still on login page")))
  /\ (includes "login" currentUrl || includes "signin" currentUrl = false ->
      exists s3,
        login_verifySuccess p s1 = (inr tt, s3)
        /\ logs s3
           = logs s2
             ++ [(LWarn, "Could not verify successful login by finding timeline elements");
                 (LInfo, "Proceeding anyway as we navigated away from login page")]
        /\ forall s4,
             login_navigateHome p s3 = (inr tt, s4) ->
             fst (connect identity st) = inr tt
             /\ connected (self (snd (connect identity st))) = true).
Proof.
  intros Hl Hp Hreach Hfind Hurl.
  pose proof (@login_verifySuccess_unverified p s1 s2 currentUrl Hfind Hurl)
    as Hverify.
  split; [| split].
  - destruct (indicators_in_order p successIndicators s1) as (n & found & H1 & H2 & H3).
    unfold login_findIndicator in Hfind. rewrite Hfind in H1, H2; simpl in H1, H2.
    injection H1 as <-. rewrite (H3 eq_refl) in H2. exact H2.
  - intros Hstill. rewrite Hstill in Hverify. split; [now rewrite Hverify |].
    intros Hshot.
    change (fst (connect identity st)
            = inl (Error ("Twitter login failed: "
                          ++ error_text still_on_login_page)%string)).
    apply connect_login_error
      with (u:=u) (pw:=pw) (em:=em) (s0:=s0) (p:=p)
           (s3:=snd (login_verifySuccess p s1)); [exact Hl | exact Hp | |].
    + unfold login_flow. rewrite (bind_returns _ _ _ Hreach).
      now rewrite (bind_throws _ _ _ Hverify), Hverify.
    + now rewrite Hverify.
  - intros Haway. rewrite Haway in Hverify.
    eexists. split; [exact Hverify |]. split; [reflexivity |].
    intros s4 Hhome.
    assert (Hflow : login_flow p u pw em s0 = (inr tt, s4)).
    { unfold login_flow. rewrite (bind_returns _ _ _ Hreach).
      now rewrite (bind_returns _ _ _ Hverify). }
    assert (Hret : fst (connect identity st) = inr tt)
      by (apply connect_login_returns
            with (u:=u) (pw:=pw) (em:=em) (s0:=s0) (p:=p) (s4:=s4); assumption).
    split; [exact Hret |].
    destruct (connect identity st) as [r st'] eqn:Hrun; simpl in Hret; subst r.
    now destruct (connect_returns _ _ Hrun) as [Hconn _].
Qed.

End VerifySuccess.

(** C5 on a site that stays on the login flow, debug mode off. *)
Lemma verification_step_witness :
  login_findIndicator 1%nat
    (snd (login_reachVerify 1%nat "alice" "secret" "alice@example.org"
            (snd (connect_launch
                    (entering (inl 0%nat) (fresh (credentials None) stuck_site))))))
  = (inr false,
     snd (login_findIndicator 1%nat
            (snd (login_reachVerify 1%nat "alice" "secret" "alice@example.org"
                    (snd (connect_launch
                            (entering (inl 0%nat) (fresh (credentials None) stuck_site))))))))
  /\ fst (connect (inl 0%nat) (fresh (credentials None) stuck_site))
     = inl (Error "Twitter login failed: Login failed - still on login page").
Proof.
  assert (Hfind :
    login_findIndicator 1%nat
      (snd (login_reachVerify 1%nat "alice" "secret" "alice@example.org"
              (snd (connect_launch
                      (entering (inl 0%nat) (fresh (credentials None) stuck_site))))))
    = (inr false,
       snd (login_findIndicator 1%nat
              (snd (login_reachVerify 1%nat "alice" "secret" "alice@example.org"
                      (snd (connect_launch
                              (entering (inl 0%nat)
                                        (fresh (credentials None) stuck_site)))))))))
    by (vm_compute; reflexivity).
  split; [exact Hfind |].
  refine (proj2 (proj1 (proj2
    (@verification_step Site _ (inl 0%nat) (fresh (credentials None) stuck_site)
       "alice" "secret" "alice@example.org" _ 1%nat _ _ loginUrl
       _ _ _ Hfind _)) _) _).
  - vm_compute; reflexivity.
  - vm_compute; reflexivity.
  - vm_compute; reflexivity.
  - vm_compute; reflexivity.
  - vm_compute; reflexivity.
  - left. vm_compute; reflexivity.
Defined.

(** C5 as stated fails in debug mode when the error screenshot is
    rejected: no indicator matches, the URL still contains "login", and
    yet [connect] fails with the screenshot's error, whose message says
    nothing about the login page. *)
Lemma connect_masks_the_login_failure :
  fst (login_findIndicator 1%nat
         (snd (login_reachVerify 1%nat "alice" "secret" "alice@example.org"
                 (snd (connect_launch
                         (entering (inl 0%nat)
                            (fresh (credentials (Some true))
                                   stuck_site_without_screenshot)))))))
  = inr false
  /\ includes "login" (location stuck_site_without_screenshot) = true
  /\ fst (connect (inl 0%nat)
            (fresh (credentials (Some true)) stuck_site_without_screenshot))
     = inl target_closed
  /\ includes "login page" (error_text target_closed) = false.
Proof. repeat split; vm_compute; reflexivity. Qed.

(** ** The new-post path without a composer *)

Section ComposerNotFound.

Context {W : Type} {E : Environment W}.

Local Abbreviation M := (M W).

(** A debug screenshot returns when debug mode is off or the request is
    accepted; only the world and the trace can have changed. *)
Lemma debug_screenshot_returns p path (st : State W) :
  debug_on (self st) = false
  \/ fst (respond (Screenshot p path) (world st)) = inr tt ->
  exists st',
    debug_screenshot p path st = (inr tt, st')
    /\ self st' = self st
    /\ logs st' = logs st
    /\ (debug_on (self st) = true ->
        world st' = snd (respond (Screenshot p path) (world st))).
Proof.
  intros Hok.
  unfold debug_screenshot, screenshot, perform, bind, this, ret; simpl.
  destruct (debug_on (self st)); simpl.
  - destruct Hok as [Hoff | Hok]; [discriminate |].
    destruct (respond (Screenshot p path) (world st)) as [[e | []] w];
      simpl in *; [discriminate |].
    eexists. repeat split.
  - eexists. repeat split. discriminate.
Qed.

(** C7, as the code has it. On a connected connector, suppose the
    new-post path got as far as composer location ([s1]), and then the
    ordered textarea selector list ([s2]), the placeholder-text scan
    ([s3]) and the selector list retried after a successful navigation to
    the compose URL ([s4]) all ended without a composer.  Provided that
    the two diagnostic screenshots of debug mode on this path, if taken,
    are not rejected, [tweet content] fails with the [Error] "Could not
    find or use the tweet composer", and the connector's fields are left
    as they were. *)
Theorem tweet_without_composer content (st : State W) p b s0 clicked s1 s2 s3 s4 :
  connected (self st) = true ->
  page (self st) = Some p ->
  browser (self st) = Some b ->
  post_openHome p (posting st) = (inr tt, s0) ->
  post_clickCompose p s0 = (inr clicked, s1) ->
  post_typeInTextarea content p s1 = (inr false, s2) ->
  post_placeholderScan content p s2 = (inr false, s3) ->
  post_directCompose content p s3 = (inr false, s4) ->
  debug_on (self st) = false
  \/ (fst (respond (Screenshot p "twitter-composer-not-found.png") (world s4)) = inr tt
      /\ fst (respond (Screenshot p "twitter-tweet-error.png")
                 (snd (respond (Screenshot p "twitter-composer-not-found.png")
                               (world s4)))) = inr tt) ->
  fst (tweet content None st) = inl composer_not_found
  /\ self (snd (tweet content None st)) = self st.
Proof.
  intros Hc Hp Hb Hhome Hcompose Hlist Hscan Hdirect Hshots.
  split; [| apply (tweet_keeps_self content None st)].
  assert (Hself : self s4 = self st).
  { pose proof (post_openHome_keeps_self p (posting st)) as K0.
    pose proof (post_clickCompose_keeps_self p s0) as K1.
    pose proof (post_typeInTextarea_keeps_self content p s1) as K2.
    pose proof (post_placeholderScan_keeps_self content p s2) as K3.
    pose proof (post_directCompose_keeps_self content p s3) as K4.
    unfold keeps, id in *.
    rewrite Hhome in K0; rewrite Hcompose in K1; rewrite Hlist in K2;
      rewrite Hscan in K3; rewrite Hdirect in K4; simpl in *.
    congruence. }
  (* the screenshot of the missing composer *)
  destruct (@debug_screenshot_returns p "twitter-composer-not-found.png" s4)
    as (s5 & Hshot5 & Hself5 & _ & Hworld5).
  { rewrite Hself. destruct Hshots as [Hoff | [Hok _]]; auto. }
  assert (Hlocate : post_locateComposer content p s1 = (inl composer_not_found, s5)).
  { unfold post_locateComposer.
    rewrite (bind_returns _ _ _ Hlist). rewrite (bind_returns _ _ _ Hscan).
    rewrite (bind_returns _ _ _ Hdirect). now rewrite (bind_returns _ _ _ Hshot5). }
  assert (Hpost : exists s6,
    postTweetWithBrowser content
      (mkState (self st) (world st) (trace st)
               (logs st ++ [(LDebug, "Posting tweet")]))
    = (inl composer_not_found, s6)
    /\ self s6 = self st /\ world s6 = world s5).
  { unfold postTweetWithBrowser, require_page, bind at 1 2, this; simpl.
    rewrite Hp. unfold ret at 1, bind at 1, log at 1; simpl.
    fold (posting st).
    assert (Hbody :
      (post_openHome p;; post_clickCompose p;; post_locateComposer content p;;
       debug_screenshot p "twitter-composed-tweet.png";; post_submit p;;
       post_settle p) (posting st) = (inl composer_not_found, s5)).
    { rewrite (bind_returns _ _ _ Hhome). rewrite (bind_returns _ _ _ Hcompose).
      now rewrite (bind_throws _ _ _ Hlocate). }
    rewrite (try_throws _ _ _ Hbody).
    unfold bind, log, throw; simpl. eexists. repeat split. simpl. congruence. }
  destruct Hpost as (s6 & Hpost & Hself6 & Hworld6).
  unfold tweet, bind at 1, this; simpl. rewrite Hc, Hp, Hb.
  unfold bind at 1, log at 1; simpl.
  assert (Htry : tweet_try p content None
                   (mkState (self st) (world st) (trace st)
                            (logs st ++ [(LDebug, "Posting tweet")]))
                 = (inl composer_not_found, s6)).
  { unfold tweet_try, bind at 1, now; simpl.
    now rewrite (bind_throws _ _ _ Hpost). }
  rewrite (try_throws _ _ _ Htry).
  unfold tweet_failed, bind at 1, log at 1; simpl.
  match goal with
  | |- fst (_ ?s) = _ =>
      destruct (@debug_screenshot_returns p "twitter-tweet-error.png" s)
        as (s7 & Hshot7 & _)
  end.
  { simpl. rewrite Hself6, Hworld6.
    destruct (debug_on (self st)) eqn:Hdebug; [right | now left].
    destruct Hshots as [Hoff | [_ Hok]]; [discriminate |].
    rewrite Hworld5 by (rewrite Hself; exact Hdebug). exact Hok. }
  now rewrite (bind_returns _ _ _ Hshot7).
Qed.

End ComposerNotFound.

(** C7 on a site where no selector matches, debug mode off. *)
Lemma tweet_without_composer_witness :
  connected (self (snd (connect (inl 0%nat) (fresh (credentials None) quiet_site))))
  = true
  /\ fst (tweet "hello" None
           (snd (connect (inl 0%nat) (fresh (credentials None) quiet_site))))
     = inl composer_not_found.
Proof.
  split; [vm_compute; reflexivity |].
  pose (st := snd (connect (inl 0%nat) (fresh (credentials None) quiet_site))).
  pose (s0 := snd (post_openHome 1%nat (posting st))).
  pose (s1 := snd (post_clickCompose 1%nat s0)).
  pose (s2 := snd (post_typeInTextarea "hello" 1%nat s1)).
  pose (s3 := snd (post_placeholderScan "hello" 1%nat s2)).
  pose (s4 := snd (post_directCompose "hello" 1%nat s3)).
  refine (proj1 (@tweet_without_composer Site _ "hello" st 1%nat 1%nat
                   s0 false s1 s2 s3 s4 _ _ _ _ _ _ _ _ _));
    try (vm_compute; reflexivity).
  left. vm_compute; reflexivity.
Defined.

(** C7 as stated fails.  No selector matches and the placeholder scan
    finds nothing, the navigation to the compose URL is rejected: [tweet]
    fails with the navigation's error.  And in debug mode, when the
    screenshot of the missing composer is rejected, [tweet] fails with
    the screenshot's error.  Neither is the composer error. *)
Lemma tweet_without_composer_other_errors :
  fst (tweet "hello" None
         (facing compose_unreachable_site
            (snd (connect (inl 0%nat) (fresh (credentials None) quiet_site)))))
  = inl navigation_timeout
  /\ fst (tweet "hello" None
           (facing quiet_site_without_screenshot
              (snd (connect (inl 0%nat) (fresh (credentials (Some true)) quiet_site)))))
     = inl target_closed
  /\ navigation_timeout <> composer_not_found
  /\ target_closed <> composer_not_found.
Proof.
  repeat split; try (vm_compute; reflexivity); discriminate.
Qed.

(** ** The fallback chains of the reply path *)

Section Fallbacks.

Context {W : Type} {E : Environment W}.

Local Abbreviation M := (M W).

Lemma grows_by_refl (P : event -> Prop) (st : State W) : grows_by P st st.
Proof. exists []. now rewrite app_nil_r. Qed.

Lemma grows_by_trans (P : event -> Prop) (a b c : State W) :
  grows_by P a b -> grows_by P b c -> grows_by P a c.
Proof.
  intros (l1 & H1 & F1) (l2 & H2 & F2). exists (l1 ++ l2).
  split; [now rewrite H2, H1, app_assoc | now apply Forall_app].
Qed.

Lemma grows_by_perform (P : event -> Prop) c :
  P (Called c) -> maintains (W:=W) (grows_by P) (perform c).
Proof.
  intros Hc st. unfold perform. destruct (respond c (world st)) as [r w]; simpl.
  exists [Called c]. split; [reflexivity | now constructor].
Qed.

Lemma grows_by_sleep (P : event -> Prop) ms :
  P (Slept ms) -> maintains (W:=W) (grows_by P) (sleep ms).
Proof.
  intros Hms st. exists [Slept ms]. split; [reflexivity | now constructor].
Qed.

Lemma grows_by_log (P : event -> Prop) l message :
  maintains (W:=W) (grows_by P) (log l message).
Proof. intro st. exists []. simpl. now rewrite app_nil_r. Qed.

(** An event passes a filter: page and text comparisons are reflexive,
    and a selector taken from the list is found in it. *)
Ltac event_passes :=
  cbv beta iota delta [probing by_selector by_text];
  rewrite ?Nat.eqb_refl, ?String.eqb_refl; cbn [andb];
  first [ reflexivity
        | apply existsb_exists; eexists; split;
          [eassumption | apply String.eqb_refl] ].

Ltac grows_leaf :=
  idtac;
  lazymatch goal with
  | |- maintains (grows_by ?P) (perform ?c) =>
      refine (@grows_by_perform P c _); event_passes
  | |- maintains _ (sleep _) => apply grows_by_sleep; event_passes
  | |- maintains _ (log _ _) => apply grows_by_log
  end.

Ltac grows_walk :=
  autounfold with connector;
  lazymatch goal with
  | |- maintains (grows_by ?P) _ =>
      maintains_walk (@grows_by_refl P) (@grows_by_trans P) grows_leaf
  end.

Lemma reply_typeInTextarea_requests content p :
  maintains (W:=W)
    (grows_by (fun ev => probing replyTextareaSelectors p content ev = true))
    (reply_typeInTextarea content p).
Proof. grows_walk. Qed.

Lemma reply_submitBySelector_requests p :
  maintains (W:=W)
    (grows_by (fun ev => by_selector replyTweetButtonSelectors p ev = true))
    (reply_submitBySelector p).
Proof. grows_walk. Qed.

Lemma reply_submitByText_requests p :
  maintains (W:=W) (grows_by (fun ev => by_text false p ev = true))
    (reply_submitByText p).
Proof. grows_walk. Qed.

Lemma reply_submitBySelector_returns p (st : State W) :
  exists clicked, fst (reply_submitBySelector p st) = inr clicked.
Proof.
  unfold reply_submitBySelector. apply for_of_returns.
  intros selector s. apply try_catch_returns.
  intros e s'. now exists false.
Qed.

Lemma reply_submitByText_returns p (st : State W) :
  exists clicked, fst (reply_submitByText p st) = inr clicked.
Proof.
  unfold reply_submitByText, bind at 1, log at 1.
  match goal with |- exists c, fst (try_catch ?m ?h ?s) = _ =>
    apply (try_catch_returns m h) end.
  intros e s'. now exists false.
Qed.

Lemma post_submitBySelector_requests p :
  maintains (W:=W)
    (grows_by (fun ev => by_selector tweetButtonSelectors p ev = true))
    (post_submitBySelector p).
Proof. grows_walk. Qed.

Lemma post_submitByText_requests p :
  maintains (W:=W) (grows_by (fun ev => by_text true p ev = true))
    (post_submitByText p).
Proof. grows_walk. Qed.

Lemma post_submitBySelector_returns p (st : State W) :
  exists clicked, fst (post_submitBySelector p st) = inr clicked.
Proof.
  unfold post_submitBySelector. apply for_of_returns.
  intros selector s. apply try_catch_returns.
  intros e s'. now exists false.
Qed.

Lemma post_submitByText_returns p (st : State W) :
  exists clicked, fst (post_submitByText p st) = inr clicked.
Proof.
  unfold post_submitByText, bind at 1, log at 1.
  match goal with |- exists c, fst (try_catch ?m ?h ?s) = _ =>
    apply (try_catch_returns m h) end.
  intros e s'. now exists false.
Qed.

(** The script stage is one request and always returns. *)
Lemma post_submitByScript_runs p (st : State W) :
  exists clicked,
    fst (post_submitByScript p st) = inr clicked
    /\ trace (snd (post_submitByScript p st)) = trace st ++ [Called (ClickScript p)].
Proof.
  unfold post_submitByScript, clickScript, perform, try_catch, bind, log, ret.
  simpl.
  destruct (respond (ClickScript p) (world st)) as [[e | [|]] w]; simpl; eauto.
Qed.

(** C2, as the code has it. The reply path has fallback chains of its
    own, built like those of the new-post path but shorter.
    - Composer location does what [reply_composer_chain] says: the walk
      through its own ordered selector list (query; on a match click,
      wait, type the content into the element; the first accepted typing
      wins, a rejection counts as a miss), and when that found nothing,
      the content typed on the raw keyboard.  No placeholder scan, no
      navigation to the compose URL.
    - Submit-button location does what [reply_submit_chain] says: the
      walk through its own ordered selector list, where the
      disabled-state check comes before the click and a disabled button
      is left alone; then the text scan of the button-like elements,
      which never checks the disabled state; then the Enter key.  No
      script is evaluated in the page.
    - The submit-button location of the new-post path does what
      [post_submit_chain] says, the same walk over its own selector
      list, then the text scan with the disabled-state check, then the
      in-page script, then the Enter key.
    Each stage starts where the one before ended and runs only when that
    one found nothing.  The three bounds that follow say it in terms of
    the requests alone. *)
Theorem reply_path_fallbacks content p (st : State W) :
  refines (reply_locateComposer content p) (reply_composer_chain content p)
  /\ refines (reply_submit p) (reply_submit_chain p)
  /\ refines (post_submit p) (post_submit_chain p)
  /\ (exists l1 l2,
      trace (snd (reply_locateComposer content p st)) = trace st ++ l1 ++ l2
      /\ Forall (fun ev => probing replyTextareaSelectors p content ev = true) l1
      /\ (l2 = [] \/ l2 = [Called (KeyType p content)]))
  /\ (exists l1 l2 l3,
        trace (snd (reply_submit p st)) = trace st ++ l1 ++ l2 ++ l3
        /\ Forall (fun ev => by_selector replyTweetButtonSelectors p ev = true) l1
        /\ Forall (fun ev => by_text false p ev = true) l2
        /\ (l3 = [] \/ l3 = [Called (KeyPress p "Enter")]))
  /\ (exists l1 l2 l3 l4,
        trace (snd (post_submit p st)) = trace st ++ l1 ++ l2 ++ l3 ++ l4
        /\ Forall (fun ev => by_selector tweetButtonSelectors p ev = true) l1
        /\ Forall (fun ev => by_text true p ev = true) l2
        /\ (l3 = [] \/ l3 = [Called (ClickScript p)])
        /\ (l4 = [] \/ l4 = [Called (KeyPress p "Enter")])).
Proof.
  split; [apply reply_locateComposer_refined |].
  split; [apply reply_submit_refined |].
  split; [apply post_submit_refined |].
  split; [| split].
  - destruct (reply_typeInTextarea_requests content p st) as (l1 & H1 & F1).
    destruct (reply_typeInTextarea_returns content p st) as [found Hfound].
    unfold reply_locateComposer, reply_enterContent, keyboard_type, perform,
      bind, log, ret, throw.
    destruct (reply_typeInTextarea content p st) as [r s1]; simpl in *; subst r.
    destruct found; simpl.
    + exists l1, []. rewrite app_nil_r. auto.
    + exists l1, [Called (KeyType p content)].
      destruct (respond (KeyType p content) (world s1)) as [[e | []] w]; simpl;
        rewrite H1, <- app_assoc; auto.
  - destruct (reply_submitBySelector_requests p st) as (l1 & H1 & F1).
    destruct (reply_submitBySelector_returns p st) as [clicked Hclicked].
    unfold reply_submit, bind at 1.
    destruct (reply_submitBySelector p st) as [r s1]; simpl in *; subst r.
    destruct clicked.
    + exists l1, [], []. simpl. rewrite app_nil_r. auto.
    + unfold bind at 1.
      destruct (reply_submitByText_requests p s1) as (l2 & H2 & F2).
      destruct (reply_submitByText_returns p s1) as [clicked Hclicked'].
      destruct (reply_submitByText p s1) as [r s2]; simpl in *; subst r.
      destruct clicked; simpl.
      * exists l1, l2, []. rewrite H2, H1, app_nil_r, <- app_assoc. auto.
      * exists l1, l2, [Called (KeyPress p "Enter")].
        unfold keyboard_press, perform, bind, log; simpl.
        destruct (respond (KeyPress p "Enter") (world s2)) as [[e | []] w]; simpl;
          rewrite H2, H1, <- !app_assoc; auto.
  - destruct (post_submitBySelector_requests p st) as (l1 & H1 & F1).
    destruct (post_submitBySelector_returns p st) as [clicked Hclicked].
    unfold post_submit, bind at 1.
    destruct (post_submitBySelector p st) as [r s1]; simpl in *; subst r.
    destruct clicked.
    + exists l1, [], [], []. simpl. rewrite app_nil_r. repeat split; auto.
    + unfold bind at 1.
      destruct (post_submitByText_requests p s1) as (l2 & H2 & F2).
      destruct (post_submitByText_returns p s1) as [clicked Hclicked'].
      destruct (post_submitByText p s1) as [r s2]; simpl in *; subst r.
      destruct clicked.
      * exists l1, l2, [], []. simpl.
        rewrite H2, H1, app_nil_r, <- app_assoc. repeat split; auto.
      * unfold bind at 1.
        destruct (post_submitByScript_runs p s2) as (clicked & Hscript & H3).
        destruct (post_submitByScript p s2) as [r s3]; simpl in *; subst r.
        destruct clicked; simpl.
        -- exists l1, l2, [Called (ClickScript p)], [].
           rewrite H3, H2, H1, <- !app_assoc. repeat split; auto.
        -- exists l1, l2, [Called (ClickScript p)], [Called (KeyPress p "Enter")].
           unfold keyboard_press, perform, bind, log; simpl.
           destruct (respond (KeyPress p "Enter") (world s3)) as [[e | []] w]; simpl;
             rewrite H3, H2, H1, <- !app_assoc; repeat split; auto.
Qed.

End Fallbacks.

(** C2 as stated fails.  Where no selector matches, the new-post path
    gives up with the composer error while the reply path types on the
    keyboard and goes on.  Where the only button-like element is a
    disabled one labelled Tweet, the new-post path leaves it alone,
    evaluates the in-page script and presses Enter, while the reply path
    clicks it, evaluates no script and presses nothing. *)
Lemma reply_path_differs_from_post_path :
  fst (post_locateComposer "hello" 1%nat (fresh (credentials None) quiet_site))
  = inl composer_not_found
  /\ fst (reply_locateComposer "hello" 1%nat (fresh (credentials None) quiet_site))
     = inr tt
  /\ ~ same_procedure (W:=Site) (reply_locateComposer "hello" 1%nat)
                      (post_locateComposer "hello" 1%nat)
  /\ In (Called (Click 7%nat))
        (trace (snd (reply_submit 1%nat (fresh (credentials None) disabled_button_site))))
  /\ ~ In (Called (Click 7%nat))
          (trace (snd (post_submit 1%nat (fresh (credentials None) disabled_button_site))))
  /\ In (Called (ClickScript 1%nat))
        (trace (snd (post_submit 1%nat (fresh (credentials None) disabled_button_site))))
  /\ ~ In (Called (ClickScript 1%nat))
          (trace (snd (reply_submit 1%nat (fresh (credentials None) disabled_button_site))))
  /\ ~ same_procedure (W:=Site) (reply_submit 1%nat) (post_submit 1%nat).
Proof.
  split; [vm_compute; reflexivity |].
  split; [vm_compute; reflexivity |].
  split.
  { intros H. destruct (H (fresh (credentials None) quiet_site)) as [Hr _].
    vm_compute in Hr. discriminate. }
  split; [vm_compute; intuition congruence |].
  split; [vm_compute; intuition discriminate |].
  split; [vm_compute; intuition congruence |].
  split; [vm_compute; intuition discriminate |].
  intros H. destruct (H (fresh (credentials None) disabled_button_site)) as [_ Ht].
  vm_compute in Ht. discriminate.
Qed.

(** ** Teardown *)

Section Teardown.

Context {W : Type} {E : Environment W}.

Local Abbreviation M := (M W).

(** [disconnect] never throws, whatever [close] answers, and calling it
    again changes nothing at all: no request, no log line, no field. *)
Theorem disconnect_twice (st : State W) :
  fst (disconnect st) = inr tt
  /\ connected (self (snd (disconnect st))) = false
  /\ disconnect (snd (disconnect st)) = (inr tt, snd (disconnect st)).
Proof.
  destruct (connected (self st)) eqn:Hc.
  - destruct (disconnect_connected _ Hc) as (Hret & Hflag & _).
    repeat split; [exact Hret | exact Hflag |].
    now apply disconnect_idle.
  - rewrite (disconnect_idle _ Hc); simpl.
    repeat split; [exact Hc | now apply disconnect_idle].
Qed.

(** What [disconnect] does on a connected connector, exactly. *)
Lemma disconnect_connected_runs (st : State W) :
  connected (self st) = true ->
  fst (disconnect st) = inr tt
  /\ trace (snd (disconnect st))
     = trace st
       ++ match monitorInterval (self st) with
          | Some t => [TimerCleared t]
          | None => []
          end
       ++ match browser (self st) with
          | Some b => [Called (Close b)]
          | None => []
          end
  /\ connected (self (snd (disconnect st))) = false
  /\ monitorInterval (self (snd (disconnect st))) = None
  /\ browser (self (snd (disconnect st))) = None
  /\ (browser (self st) <> None -> page (self (snd (disconnect st))) = None).
Proof.
  intros Hc.
  unfold disconnect, close_quietly, close, perform, bind, try_catch, this,
    log, emit, update, ret, throw; simpl.
  rewrite Hc; simpl.
  destruct (monitorInterval (self st)) as [t |] eqn:Ht; simpl;
    (destruct (browser (self st)) as [b |] eqn:Hb; simpl;
     [ destruct (respond (Close b) (world st)) as [[e | []] w]; simpl;
       rewrite <- ?app_assoc, ?app_nil_r; repeat split; auto
     | rewrite ?Ht, ?Hb, ?app_nil_r; repeat split; auto; congruence ]).
Qed.

(** On a connected connector [disconnect] cancels the timer it holds,
    then closes the browser it holds, each exactly once, and makes no
    other request; it returns even when [close] is rejected, and
    afterwards the flag is down and neither timer nor browser is held. *)
Theorem disconnect_releases (st : State W) :
  connected (self st) = true ->
  fst (disconnect st) = inr tt
  /\ (exists cleared closed,
        trace (snd (disconnect st)) = trace st ++ cleared ++ closed
        /\ cleared = match monitorInterval (self st) with
                     | Some t => [TimerCleared t]
                     | None => []
                     end
        /\ closed = match browser (self st) with
                    | Some b => [Called (Close b)]
                    | None => []
                    end)
  /\ connected (self (snd (disconnect st))) = false
  /\ monitorInterval (self (snd (disconnect st))) = None
  /\ browser (self (snd (disconnect st))) = None.
Proof.
  intros Hc.
  destruct (disconnect_connected_runs _ Hc) as (Hret & Htrace & Hflag & Ht & Hb & _).
  split; [exact Hret |]. split; [| now repeat split].
  eexists. eexists. split; [exact Htrace |]. now split.
Qed.

End Teardown.

(** Teardown of a connector that connected with monitoring on. *)
Lemma disconnect_releases_witness :
  connected
    (self (snd (connect (inl 0%nat)
                  (fresh (mkConfig (Some "alice") (Some "secret") None
                                   (Some ["ai"]) None None (Some 1000) None None)
                         quiet_site)))) = true
  /\ skipn 26
       (trace (snd (disconnect
                      (snd (connect (inl 0%nat)
                              (fresh (mkConfig (Some "alice") (Some "secret") None
                                               (Some ["ai"]) None None (Some 1000)
                                               None None)
                                     quiet_site))))))
     = [TimerArmed 1000; TimerCleared 1000; Called (Close 1%nat)].
Proof.
  assert (Hc : connected
    (self (snd (connect (inl 0%nat)
                  (fresh (mkConfig (Some "alice") (Some "secret") None
                                   (Some ["ai"]) None None (Some 1000) None None)
                         quiet_site)))) = true) by (vm_compute; reflexivity).
  split; [exact Hc |].
  destruct (disconnect_releases _ Hc) as (_ & (cleared & closed & -> & -> & ->) & _).
  vm_compute. reflexivity.
Defined.

(** ** What a call may add to the trace *)

Section Footprints.

Context {W : Type} {E : Environment W}.

Local Abbreviation M := (M W).

Lemma grows_by_update (P : event -> Prop) f :
  maintains (W:=W) (grows_by P) (update f).
Proof. intro st. exists []. simpl. now rewrite app_nil_r. Qed.

Lemma grows_by_emit (P : event -> Prop) ev :
  P ev -> maintains (W:=W) (grows_by P) (emit ev).
Proof. intros Hev st. exists [ev]. split; [reflexivity | now constructor]. Qed.

Lemma grows_by_weaken (P Q : event -> Prop) (st st' : State W) :
  (forall ev, P ev -> Q ev) -> grows_by P st st' -> grows_by Q st st'.
Proof.
  intros HPQ (l & Hl & Fl). exists l. split; [exact Hl |].
  eapply Forall_impl; [exact HPQ | exact Fl].
Qed.

End Footprints.

(** Walks a procedure for a filter on events; [passes] shows that one
    event passes the filter. *)
Ltac footprint_leaf passes :=
  idtac;
  lazymatch goal with
  | |- maintains (grows_by ?P) (perform ?c) =>
      refine (@grows_by_perform _ _ P c _); passes
  | |- maintains _ (sleep _) => apply grows_by_sleep; passes
  | |- maintains _ (emit _) => apply grows_by_emit; passes
  | |- maintains _ (log _ _) => apply grows_by_log
  | |- maintains _ (update _) => apply grows_by_update
  end.

Ltac footprint_walk passes :=
  autounfold with connector;
  repeat lazymatch goal with
  | |- @maintains ?W0 _ (grows_by ?P) ?m =>
      lazymatch m with
      | bind _ _ => apply (maintains_bind (@grows_by_trans W0 P)); [ | intro ]
      | try_catch _ _ =>
          apply (maintains_try_catch (@grows_by_trans W0 P)); [ | intro ]
      | for_of _ _ =>
          apply (maintains_for_of (@grows_by_refl W0 P) (@grows_by_trans W0 P));
          intros ? ?
      | ret _ => apply (maintains_ret _ (@grows_by_refl W0 P))
      | throw _ => apply (maintains_throw _ (@grows_by_refl W0 P))
      | now => apply (maintains_now _ (@grows_by_refl W0 P))
      | this => apply (maintains_this _ (@grows_by_refl W0 P))
      | if ?b then _ else _ => destruct b
      | match ?x with _ => _ end => destruct x
      | _ => footprint_leaf passes
      end
  end.

(** ** Timers *)

Section Timers.

Context {W : Type} {E : Environment W}.

Local Abbreviation M := (M W).








(** What [connect_finish] does, exactly. *)
Lemma connect_finish_runs (st : State W) :
  fst (connect_finish st) = inr tt
  /\ self (snd (connect_finish st))
     = (if monitoring_configured (config (self st))
        then set_monitorInterval
               (Some (num_or (pollInterval (config (self st))) 60000))
               (set_connected true (self st))
        else set_connected true (self st))
  /\ trace (snd (connect_finish st))
     = trace st
       ++ (if monitoring_configured (config (self st))
           then match monitorInterval (self st) with
                | Some t => [TimerCleared t]
                | None => []
                end
                ++ [TimerArmed (num_or (pollInterval (config (self st))) 60000)]
           else []).
Proof.
  unfold connect_finish, setupMonitoring, monitoring_configured, bind, this,
    log, update, emit, ret; simpl.
  destruct (truthy_length (monitorKeywords (config (self st)))
            || truthy_length (monitorUsers (config (self st)))); simpl;
    [| now rewrite app_nil_r].
  destruct (monitorInterval (self st)); simpl;
    rewrite <- ?app_assoc; repeat split.
Qed.

(** A [connect] that returns went through its three phases. *)
Lemma connect_returns_phases identity (st : State W) st' :
  connect identity st = (inr tt, st') ->
  exists username password email s0 s3,
    connect_launch (entering identity st) = (inr (username, password, email), s0)
    /\ browserLogin username password email s0 = (inr tt, s3)
    /\ connect_finish s3 = (inr tt, st').
Proof.
  unfold connect.
  rewrite bind_returns with (a:=tt) (st':=entering identity st)
    by apply connect_identity_returns.
  unfold try_catch.
  destruct (connect_try (entering identity st)) as [[e | []] s1] eqn:Htry.
  - intros H. pose proof (connect_failed_throws e s1) as Hf.
    rewrite H in Hf. discriminate.
  - intros [= <-]. revert Htry. unfold connect_try, bind.
    destruct (connect_launch (entering identity st)) as [[e1 | [[u pw] em]] s0];
      [discriminate |].
    destruct (browserLogin u pw em s0) as [[e2 | []] s3] eqn:Hlogin;
      [discriminate |].
    intros Hfin. now exists u, pw, em, s0, s3.
Qed.

(** The fields a returning [connect] ends with. *)
Lemma connect_returns_self identity (st : State W) st' :
  connect identity st = (inr tt, st') ->
  exists b p,
    browser (self st') = Some b
    /\ page (self st') = Some p
    /\ connected (self st') = true
    /\ config (self st') = config (self st)
    /\ monitorInterval (self st')
       = if monitoring_configured (config (self st))
         then Some (num_or (pollInterval (config (self st))) 60000)
         else monitorInterval (self st).
Proof.
  intros Hrun.
  destruct (connect_returns_phases _ _ Hrun)
    as (u & pw & em & s0 & s3 & Hl & Hlogin & Hfin).
  destruct (connect_launch_returns _ Hl) as (b & p & Hs0 & _).
  pose proof (browserLogin_keeps_self u pw em s0) as Hsame.
  unfold keeps, id in Hsame. rewrite Hlogin in Hsame; simpl in Hsame.
  destruct (connect_finish_runs s3) as (_ & Hself & _).
  rewrite Hfin in Hself; simpl in Hself.
  destruct (entering_keeps identity st) as (Ec & _).
  assert (Hcfg : config (self s3) = config (self st))
    by (rewrite Hsame, Hs0; simpl; exact Ec).
  assert (Ht : monitorInterval (self s3) = monitorInterval (self st))
    by (rewrite Hsame, Hs0; simpl; now destruct identity).
  exists b, p. rewrite Hself, Hcfg.
  destruct (monitoring_configured (config (self st))); simpl;
    rewrite Hsame, Hs0; simpl; repeat split; auto; now destruct identity.
Qed.

(** A throwing [connect] leaves the timer field alone. *)
Lemma connect_throws_keeps_timer identity (st : State W) e st' :
  connect identity st = (inl e, st') ->
  monitorInterval (self st') = monitorInterval (self st).
Proof.
  intros Hrun.
  destruct (connect_throws _ _ Hrun) as (s1 & Htry & ->).
  pose proof (connect_failed_keeps_timer e s1) as Hf. unfold keeps in Hf.
  rewrite Hf.
  assert (Hent : monitorInterval (self (entering identity st))
                 = monitorInterval (self st)) by now destruct identity.
  rewrite <- Hent.
  pose proof (connect_launch_keeps_timer (entering identity st)) as Hl'.
  unfold keeps in Hl'.
  destruct (connect_try_throws _ Htry) as [Hl | (u & pw & em & s0 & Hl & Hlogin)];
    rewrite Hl in Hl'; simpl in Hl'; [exact Hl' |].
  pose proof (browserLogin_keeps_self u pw em s0) as Hsame.
  unfold keeps, id in Hsame. rewrite Hlogin in Hsame; simpl in Hsame.
  now rewrite Hsame.
Qed.




End Timers.


(** ** The connection state *)

Section ConnectionState.

Context {W : Type} {E : Environment W}.

Local Abbreviation M := (M W).

(** Whatever [connect] ends in, it has stored the identity it was given
    and cleared the other one: an agent and a swarm are never both set. *)
Theorem connect_stores_identity identity (st : State W) :
  match identity with
  | inl a =>
      agent (self (snd (connect identity st))) = Some a
      /\ swarm (self (snd (connect identity st))) = None
  | inr s =>
      agent (self (snd (connect identity st))) = None
      /\ swarm (self (snd (connect identity st))) = Some s
  end.
Proof.
  pose proof (connect_attempt_keeps_agent (entering identity st)) as Ka.
  pose proof (connect_attempt_keeps_swarm (entering identity st)) as Ks.
  unfold keeps in Ka, Ks.
  unfold connect.
  rewrite bind_returns with (a:=tt) (st':=entering identity st)
    by apply connect_identity_returns.
  rewrite Ka, Ks. now destruct identity.
Qed.

(** When [connect] returns, the connector is connected and holds a
    browser and a page; the configuration is untouched; and a polling
    timer of period [pollInterval] (60000 when that is absent or zero) is
    held exactly when a monitor keyword or a monitor user is configured,
    otherwise the timer field is what it was. *)
Theorem connect_success identity (st : State W) st' :
  connect identity st = (inr tt, st') ->
  connected (self st') = true
  /\ (exists b, browser (self st') = Some b)
  /\ (exists p, page (self st') = Some p)
  /\ config (self st') = config (self st)
  /\ monitorInterval (self st')
     = if truthy_length (monitorKeywords (config (self st)))
          || truthy_length (monitorUsers (config (self st)))
       then Some (match pollInterval (config (self st)) with
                  | Some n => if n =? 0 then 60000 else n
                  | None => 60000
                  end)
       else monitorInterval (self st).
Proof.
  intros Hrun.
  destruct (connect_returns_self _ _ Hrun) as (b & p & Hb & Hp & Hc & Hcfg & Ht).
  repeat split; eauto.
Qed.

(** In every reachable state a browser handle or a timer is held only
    while [connected] is set. *)
Lemma settled_invariant (st : State W) : reachable st -> settled st.
Proof.
  induction 1 as [cfg w | w st _ IH | identity st Hreach IH | st _ IH
                  | content replyToId st _ IH | tweetId st _ IH
                  | tweetId st _ IH | username st _ IH | st _ IH].
  - split; intros H; now contradiction H.
  - exact IH.
  - destruct (connect identity st) as [[e | []] st'] eqn:Hrun; simpl.
    + destruct (connect_throws_state identity Hreach Hrun) as (Hb & _ & Hflag).
      pose proof (connect_throws_keeps_timer _ _ Hrun) as Ht.
      destruct IH as [_ IH]. split.
      * intros H. now contradiction H.
      * rewrite Ht, Hflag. exact IH.
    + destruct (connect_returns_self _ _ Hrun) as (_ & _ & _ & _ & Hc & _).
      split; intros _; exact Hc.
  - destruct (connected (self st)) eqn:Hc.
    + destruct (disconnect_connected_runs _ Hc) as (_ & _ & _ & Ht & Hb & _).
      split; intros H; [now contradiction H | now contradiction H].
    + now rewrite (disconnect_idle _ Hc).
  - pose proof (tweet_keeps_self content replyToId st) as K.
    unfold keeps, id in K. unfold settled. now rewrite K.
  - exact IH.
  - exact IH.
  - exact IH.
  - exact IH.
Qed.

(** A reachable connector that is not connected holds no browser, no
    page and no timer. *)
Theorem not_connected_holds_nothing (st : State W) :
  reachable st ->
  connected (self st) = false ->
  browser (self st) = None
  /\ page (self st) = None
  /\ monitorInterval (self st) = None.
Proof.
  intros Hreach Hc.
  destruct (settled_invariant Hreach) as [Sb St].
  destruct (reachable_consistent Hreach) as [Hbp _].
  assert (Hb : browser (self st) = None).
  { destruct (browser (self st)); [| reflexivity].
    rewrite Sb in Hc; discriminate. }
  split; [exact Hb |]. split; [now apply Hbp |].
  destruct (monitorInterval (self st)); [| reflexivity].
  rewrite St in Hc; discriminate.
Qed.

(** From every reachable state, also one left by a failed reconnect,
    [disconnect] ends in the clean state: not connected, no browser, no
    page, no timer. *)
Theorem disconnect_cleans_up (st : State W) :
  reachable st ->
  connected (self (snd (disconnect st))) = false
  /\ browser (self (snd (disconnect st))) = None
  /\ page (self (snd (disconnect st))) = None
  /\ monitorInterval (self (snd (disconnect st))) = None.
Proof.
  intros Hreach.
  pose proof (reachable_consistent (reach_disconnect Hreach)) as [Hbp _].
  destruct (connected (self st)) eqn:Hc.
  - destruct (disconnect_connected_runs _ Hc) as (_ & _ & Hflag & Ht & Hb & _).
    repeat split; auto. now apply Hbp.
  - destruct (settled_invariant Hreach) as [Sb St].
    rewrite (disconnect_idle _ Hc) in *; simpl in *.
    assert (Hb : browser (self st) = None).
    { destruct (browser (self st)); [| reflexivity].
      rewrite Sb in Hc; [discriminate | discriminate]. }
    assert (Ht : monitorInterval (self st) = None).
    { destruct (monitorInterval (self st)); [| reflexivity].
      rewrite St in Hc; [discriminate | discriminate]. }
    repeat split; auto. now apply Hbp.
Qed.

End ConnectionState.

(** ConnectionState at concrete connectors. *)
Lemma connect_success_witness :
  connect (inl 0%nat) (fresh monitoring_credentials quiet_site)
  = (inr tt, snd (connect (inl 0%nat) (fresh monitoring_credentials quiet_site)))
  /\ monitorInterval
       (self (snd (connect (inl 0%nat) (fresh monitoring_credentials quiet_site))))
     = Some 1000.
Proof.
  assert (Hrun :
    connect (inl 0%nat) (fresh monitoring_credentials quiet_site)
    = (inr tt, snd (connect (inl 0%nat) (fresh monitoring_credentials quiet_site))))
    by (vm_compute; reflexivity).
  split; [exact Hrun |].
  destruct (connect_success _ _ Hrun) as (_ & _ & _ & _ & ->).
  reflexivity.
Defined.

Lemma not_connected_holds_nothing_witness :
  connected (self (snd (connect (inl 0%nat)
                          (fresh monitoring_credentials unreachable_site)))) = false
  /\ browser (self (snd (connect (inl 0%nat)
                           (fresh monitoring_credentials unreachable_site)))) = None.
Proof.
  assert (Hc : connected
    (self (snd (connect (inl 0%nat)
                  (fresh monitoring_credentials unreachable_site)))) = false)
    by (vm_compute; reflexivity).
  split; [exact Hc |].
  exact (proj1 (not_connected_holds_nothing
                  (reach_connect (inl 0%nat)
                     (reach_new monitoring_credentials unreachable_site)) Hc)).
Defined.

(** Teardown after a failed reconnect, which left the flag
    set and the timer armed. *)
Lemma disconnect_cleans_up_witness :
  connected
    (self (snd (connect (inl 0%nat)
                  (facing offline_site
                     (snd (connect (inl 0%nat)
                             (fresh monitoring_credentials quiet_site))))))) = true
  /\ connected
       (self (snd (disconnect
                     (snd (connect (inl 0%nat)
                             (facing offline_site
                                (snd (connect (inl 0%nat)
                                        (fresh monitoring_credentials quiet_site))))))))) = false
  /\ monitorInterval
       (self (snd (disconnect
                     (snd (connect (inl 0%nat)
                             (facing offline_site
                                (snd (connect (inl 0%nat)
                                        (fresh monitoring_credentials quiet_site))))))))) = None.
Proof.
  split; [vm_compute; reflexivity |].
  pose proof (@disconnect_cleans_up Site _ _
    (reach_connect (inl 0%nat)
       (reach_world offline_site
          (reach_connect (inl 0%nat)
             (reach_new monitoring_credentials quiet_site)))))
    as (Hflag & _ & _ & Ht).
  split; [exact Hflag | exact Ht].
Defined.

(** ** What tweet and the login procedure ask of the browser *)

Section Requests.

Context {W : Type} {E : Environment W}.

Local Abbreviation M := (M W).

Ltac request_passes :=
  cbv beta iota delta [posting_request login_request];
  rewrite ?String.eqb_refl; vm_compute; reflexivity.

Lemma tweet_requests content replyToId :
  maintains (W:=W)
    (grows_by (fun ev => posting_request content replyToId ev = true))
    (tweet content replyToId).
Proof. footprint_walk request_passes. Qed.

(** Whether it returns or throws, [tweet] leaves every field of the
    connector as it was (the session stays connected), and every request
    it makes passes [posting_request]: navigation only to the parent's
    status page (reply) or to the home and compose pages (new post),
    nothing typed but the content, no key pressed but Enter, no browser
    launched, configured or closed. *)
Theorem tweet_only_posts content replyToId (st : State W) :
  self (snd (tweet content replyToId st)) = self st
  /\ exists l,
      trace (snd (tweet content replyToId st)) = trace st ++ l
      /\ Forall (fun ev => posting_request content replyToId ev = true) l.
Proof.
  split.
  - apply (tweet_keeps_self content replyToId st).
  - apply (tweet_requests content replyToId st).
Qed.

Lemma replay_app (w : W) l1 l2 : replay w (l1 ++ l2) = replay (replay w l1) l2.
Proof.
  revert w. induction l1 as [| ev l1 IH]; intros w; [reflexivity |].
  destruct ev; simpl; apply IH.
Qed.

Lemma replayed_refl (P : event -> Prop) (st : State W) : replayed P st st.
Proof. exists []. now rewrite app_nil_r. Qed.

Lemma replayed_trans (P : event -> Prop) (a b c : State W) :
  replayed P a b -> replayed P b c -> replayed P a c.
Proof.
  intros (l1 & H1 & W1 & F1) (l2 & H2 & W2 & F2). exists (l1 ++ l2).
  split; [now rewrite H2, H1, app_assoc |].
  split; [now rewrite W2, W1, replay_app | now apply Forall_app].
Qed.

Lemma replayed_perform (P : event -> Prop) c :
  P (Called c) -> maintains (W:=W) (replayed P) (perform c).
Proof.
  intros Hc st. unfold perform. destruct (respond c (world st)) as [r w] eqn:Hr.
  exists [Called c]. simpl. rewrite Hr. repeat split. now constructor.
Qed.

Lemma replayed_sleep (P : event -> Prop) ms :
  P (Slept ms) -> maintains (W:=W) (replayed P) (sleep ms).
Proof. intros Hms st. exists [Slept ms]. repeat split. now constructor. Qed.

Lemma replayed_log (P : event -> Prop) l message :
  maintains (W:=W) (replayed P) (log l message).
Proof. intro st. exists []. simpl. now rewrite app_nil_r. Qed.

Ltac replayed_leaf passes :=
  idtac;
  lazymatch goal with
  | |- maintains (replayed ?P) (perform ?c) =>
      refine (@replayed_perform P c _); passes
  | |- maintains _ (sleep _) => apply replayed_sleep; passes
  | |- maintains _ (log _ _) => apply replayed_log
  end.

Ltac replayed_walk passes :=
  autounfold with connector;
  lazymatch goal with
  | |- maintains (replayed ?P) _ =>
      maintains_walk (@replayed_refl P) (@replayed_trans P)
                     ltac:(replayed_leaf passes)
  end.

(** The requests of the login procedure that do not type into an
    element. *)
Ltac login_passes :=
  split; [request_passes | reflexivity].

Lemma asked_then_typed_refl p selector (P : event -> Prop) (st : State W) :
  asked_then_typed p selector P st st.
Proof.
  exists []. rewrite app_nil_r. repeat split; [constructor |].
  intros l1 h text l2 H. now destruct l1.
Qed.

Lemma asked_then_typed_trans p selector (P : event -> Prop) (a b c : State W) :
  asked_then_typed p selector P a b -> asked_then_typed p selector P b c ->
  asked_then_typed p selector P a c.
Proof.
  intros (la & Ha & Wa & Fa & Ta) (lb & Hb & Wb & Fb & Tb). exists (la ++ lb).
  split; [now rewrite Hb, Ha, app_assoc |].
  split; [now rewrite Wb, Wa, replay_app |].
  split; [now apply Forall_app |].
  intros l1 h text l2 Hsplit.
  apply app_eq_app in Hsplit. destruct Hsplit as [l [[H1 H2] | [H1 H2]]].
  - destruct l as [| ev l].
    + simpl in H2. rewrite app_nil_r in H1. subst l1.
      destruct (Tb [] h text l2 (eq_sym H2)) as (l0 & Hl0 & _).
      now destruct l0.
    + injection H2 as <- H2. exact (Ta l1 h text l H1).
  - destruct (Tb l h text l2 H2) as (l0 & Hl0 & Hq). exists (la ++ l0).
    split; [now rewrite H1, Hl0, app_assoc |].
    now rewrite replay_app, <- Wa.
Qed.

(** Steps that type into no element. *)
Lemma replayed_asked p selector (P : event -> Prop) {A} (m : M A) :
  maintains (replayed (fun ev => P ev /\ types_element ev = false)) m ->
  maintains (asked_then_typed p selector P) m.
Proof.
  intros H st. destruct (H st) as (l & Hl & Hw & Fl). exists l.
  split; [exact Hl |]. split; [exact Hw |]. split.
  - eapply Forall_impl; [| exact Fl]. now intros ev [HP _].
  - intros l1 h text l2 Hsplit. subst l.
    apply Forall_app in Fl. destruct Fl as [_ Fl].
    inversion Fl as [| ev l' [_ Hno] _]. discriminate.
Qed.

(** Nothing but the query was made. *)
Lemma asked_only p selector (P : event -> Prop) (st st' : State W) :
  P (Called (Query p selector)) ->
  trace st' = trace st ++ [Called (Query p selector)] ->
  world st' = snd (respond (Query p selector) (world st)) ->
  asked_then_typed p selector P st st'.
Proof.
  intros HP Ht Hw. exists [Called (Query p selector)].
  split; [exact Ht |]. split; [exact Hw |]. split; [now constructor |].
  intros l1 h text l2 H. destruct l1 as [| ev [| ev' l1]]; discriminate.
Qed.

(** The query answered [h]; then [h] was typed into, and into no
    other element afterwards. *)
Lemma asked_and_typed p selector (P : event -> Prop) (st st' : State W) h text l :
  P (Called (Query p selector)) ->
  P (Called (TypeElement h text)) ->
  fst (respond (Query p selector) (world st)) = inr (Some h) ->
  trace st' = trace st ++ Called (Query p selector) :: Called (TypeElement h text) :: l ->
  world st'
  = replay (world st) (Called (Query p selector) :: Called (TypeElement h text) :: l) ->
  Forall (fun ev => P ev /\ types_element ev = false) l ->
  asked_then_typed p selector P st st'.
Proof.
  intros HQ HT Hq Ht Hw Fl.
  exists (Called (Query p selector) :: Called (TypeElement h text) :: l).
  split; [exact Ht |]. split; [exact Hw |]. split.
  - constructor; [exact HQ |]. constructor; [exact HT |].
    eapply Forall_impl; [| exact Fl]. now intros ev [HP _].
  - intros l1 h' text' l2 H.
    destruct l1 as [| ev l1]; [discriminate |]. injection H as <- H.
    destruct l1 as [| ev l1].
    + injection H as <- _ _. exists []. now split.
    + injection H as _ H. subst l.
      apply Forall_app in Fl. destruct Fl as [_ Fl].
      inversion Fl as [| ev' l' [_ Hno] _]. discriminate.
Qed.

(** The email verification step types into the element that its query
    for the verification input answered, right after that query, and
    into no other. *)
Lemma login_emailVerification_asks p username password email :
  maintains (W:=W)
    (asked_then_typed p verificationInput
       (fun ev => login_request username password email ev = true))
    (login_emailVerification p email).
Proof.
  intros st. unfold login_emailVerification.
  change ("input" ++ attr "data-testid" "ocfEnterTextTextInput")%string
    with verificationInput.
  unfold bind at 1, query, perform.
  destruct (respond (Query p verificationInput) (world st))
    as [[e | [input |]] w1] eqn:Hq;
    try (apply asked_only; [reflexivity | reflexivity | now rewrite Hq]).
  unfold bind at 1, log at 1. cbv beta iota zeta delta [self world trace logs fst snd].
  destruct email as [| a email];
    [apply asked_only; [reflexivity | reflexivity | now rewrite Hq] |].
  unfold bind at 1, ret at 1.
  match goal with
  | |- context [bind (type_element input ?text) ?k] =>
      assert (Hrest : forall a, maintains (W:=W)
                (replayed (fun ev => login_request username password text ev = true
                                     /\ types_element ev = false))
                (k a)) by (intro; replayed_walk login_passes)
  end.
  unfold bind at 1, type_element, perform.
  cbv beta iota zeta delta [self world trace logs fst snd].
  destruct (respond (TypeElement input (String a email)) w1) as [[e | []] w2] eqn:Ht.
  - apply asked_and_typed with (h:=input) (text:=String a email) (l:=[]);
      [ reflexivity
      | cbv beta iota delta [login_request]; apply String.eqb_refl
      | now rewrite Hq
      | simpl; now rewrite <- app_assoc
      | simpl; rewrite Hq; simpl; now rewrite Ht
      | constructor ].
  - match goal with
    | |- asked_then_typed _ _ _ _ (let (_, y) := _ ?s2 in y) =>
        destruct (Hrest tt s2) as (l & Hl & Hw & Fl);
        cbv beta in Hl, Hw;
        fold (@snd (exn + unit) (State W))
    end.
    apply asked_and_typed with (h:=input) (text:=String a email) (l:=l);
      [ reflexivity
      | cbv beta iota delta [login_request]; apply String.eqb_refl
      | now rewrite Hq
      | etransitivity; [exact Hl |]; simpl; now rewrite <- !app_assoc
      | etransitivity; [exact Hw |]; simpl; rewrite Hq; simpl; now rewrite Ht
      | exact Fl ].
Qed.

Lemma login_flow_asks p username password email :
  maintains (W:=W)
    (asked_then_typed p verificationInput
       (fun ev => login_request username password email ev = true))
    (try_catch (login_flow p username password email) (login_failed p)).
Proof.
  unfold login_flow, login_reachVerify.
  maintains_walk
    (@asked_then_typed_refl p verificationInput
       (fun ev => login_request username password email ev = true))
    (@asked_then_typed_trans p verificationInput
       (fun ev => login_request username password email ev = true))
    ltac:(idtac;
          first [ apply login_emailVerification_asks
                | apply replayed_asked; replayed_walk login_passes ]).
Qed.

(** Whether it returns or throws, the login procedure leaves every field
    of the connector as it was; the world changes through its requests
    and waits alone; every request it makes passes [login_request]: the
    password is typed into the password input only, the username into
    the username input only, and navigation goes to the login and home
    pages only; and whenever it types into an element, it types the
    email, right after its query for the verification input, into the
    very element that this query answered. *)
Theorem login_only_types_credentials username password email (st : State W) :
  self (snd (browserLogin username password email st)) = self st
  /\ exists l,
      trace (snd (browserLogin username password email st)) = trace st ++ l
      /\ world (snd (browserLogin username password email st))
         = replay (world st) l
      /\ Forall (fun ev => login_request username password email ev = true) l
      /\ forall p l1 h text l2,
           page (self st) = Some p ->
           l = l1 ++ Called (TypeElement h text) :: l2 ->
           text = email
           /\ exists l0,
               l1 = l0 ++ [Called (Query p verificationInput)]
               /\ fst (respond (Query p verificationInput) (replay (world st) l0))
                  = inr (Some h).
Proof.
  split; [apply (browserLogin_keeps_self username password email st) |].
  destruct (page (self st)) as [p |] eqn:Hp.
  - assert (Hrun : browserLogin username password email st
                   = try_catch (login_flow p username password email)
                               (login_failed p) st).
    { unfold browserLogin, require_page, bind, this.
      cbv beta iota zeta. rewrite Hp. reflexivity. }
    rewrite Hrun.
    destruct (login_flow_asks p username password email st)
      as (l & Hl & Hw & Fl & Tl).
    exists l. split; [exact Hl |]. split; [exact Hw |]. split; [exact Fl |].
    intros p' l1 h text l2 [= <-] Hsplit. split; [| now apply (Tl l1 h text l2)].
    subst l. apply Forall_app in Fl. destruct Fl as [_ Fl].
    inversion Fl as [| ev l' Htext _]. now apply String.eqb_eq.
  - assert (Hrun : browserLogin username password email st
                   = (inl (Error "Browser not initialized"), st)).
    { unfold browserLogin, require_page, bind, this.
      cbv beta iota zeta. rewrite Hp. reflexivity. }
    rewrite Hrun. exists []. simpl. rewrite app_nil_r.
    split; [reflexivity |]. split; [reflexivity |]. split; [constructor |].
    intros p l1 h text l2 H. discriminate H.
Qed.

End Requests.

(** The login on a site that asks for the email: the email is typed
    into element 3, which the query for the verification input
    answered. *)
Lemma login_only_types_credentials_witness :
  let st := snd (connect_launch (fresh (credentials None) verification_site)) in
  page (self st) = Some 1%nat
  /\ In (Called (TypeElement 3%nat "alice@example.org"))
        (trace (snd (browserLogin "alice" "secret" "alice@example.org" st)))
  /\ self (snd (browserLogin "alice" "secret" "alice@example.org" st)) = self st
  /\ exists l,
      trace (snd (browserLogin "alice" "secret" "alice@example.org" st))
      = trace st ++ l
      /\ forall l1 h text l2,
           l = l1 ++ Called (TypeElement h text) :: l2 ->
           text = "alice@example.org"%string
           /\ exists l0,
               l1 = l0 ++ [Called (Query 1%nat verificationInput)]
               /\ fst (respond (Query 1%nat verificationInput)
                               (replay (world st) l0))
                  = inr (Some h).
Proof.
  intro st.
  assert (Hpage : page (self st) = Some 1%nat) by (vm_compute; reflexivity).
  split; [exact Hpage |].
  split; [vm_compute; tauto |].
  destruct (login_only_types_credentials "alice" "secret" "alice@example.org" st)
    as (Hself & l & Hl & _ & _ & Htyped).
  split; [exact Hself |].
  exists l. split; [exact Hl |].
  intros l1 h text l2. exact (Htyped 1%nat l1 h text l2 Hpage).
Defined.

(** ** Submission never gives up *)

Section Submission.

Context {W : Type} {E : Environment W}.

Local Abbreviation M := (M W).

(** The submit-button location of the new-post path swallows every
    failure of its three lookup stages: if it throws, each stage ended
    without a click and what propagates is the rejection of the final
    Enter key press. *)
Theorem post_submit_throws p (st : State W) e st' :
  post_submit p st = (inl e, st') ->
  exists s1 s2 s3,
    post_submitBySelector p st = (inr false, s1)
    /\ post_submitByText p s1 = (inr false, s2)
    /\ post_submitByScript p s2 = (inr false, s3)
    /\ respond (KeyPress p "Enter") (world s3) = (inl e, world st').
Proof.
  unfold post_submit, bind at 1.
  destruct (post_submitBySelector_returns p st) as [c1 H1].
  destruct (post_submitBySelector p st) as [r1 s1] eqn:R1; simpl in H1; subst r1.
  destruct c1; [unfold bind, ret; simpl; discriminate |].
  unfold bind at 1.
  destruct (post_submitByText_returns p s1) as [c2 H2].
  destruct (post_submitByText p s1) as [r2 s2] eqn:R2; simpl in H2; subst r2.
  destruct c2; [unfold bind, ret; simpl; discriminate |].
  unfold bind at 1.
  destruct (post_submitByScript_runs p s2) as (c3 & H3 & _).
  destruct (post_submitByScript p s2) as [r3 s3] eqn:R3; simpl in H3; subst r3.
  destruct c3; [unfold ret; simpl; discriminate |].
  unfold keyboard_press, perform, bind, log, emit, update; simpl.
  destruct (respond (KeyPress p "Enter") (world s3)) as [[e' | []] w] eqn:Hkey;
    [| discriminate].
  intros [= <- <-]. exists s1, s2, s3. now repeat split.
Qed.

(** The same for the reply path and its two lookup stages. *)
Theorem reply_submit_throws p (st : State W) e st' :
  reply_submit p st = (inl e, st') ->
  exists s1 s2,
    reply_submitBySelector p st = (inr false, s1)
    /\ reply_submitByText p s1 = (inr false, s2)
    /\ respond (KeyPress p "Enter") (world s2) = (inl e, world st').
Proof.
  unfold reply_submit, bind at 1.
  destruct (reply_submitBySelector_returns p st) as [c1 H1].
  destruct (reply_submitBySelector p st) as [r1 s1] eqn:R1; simpl in H1; subst r1.
  destruct c1; [unfold bind, ret; simpl; discriminate |].
  unfold bind at 1.
  destruct (reply_submitByText_returns p s1) as [c2 H2].
  destruct (reply_submitByText p s1) as [r2 s2] eqn:R2; simpl in H2; subst r2.
  destruct c2; [unfold ret; simpl; discriminate |].
  unfold keyboard_press, perform, bind, log, emit, update; simpl.
  destruct (respond (KeyPress p "Enter") (world s2)) as [[e' | []] w] eqn:Hkey;
    [| discriminate].
  intros [= <- <-]. exists s1, s2. now repeat split.
Qed.

End Submission.

Lemma post_submit_throws_witness :
  let st := fresh (credentials None) keyboard_dead_site in
  post_submit 1%nat st = (inl keyboard_failure, snd (post_submit 1%nat st))
  /\ exists s1 s2 s3,
      post_submitBySelector 1%nat st = (inr false, s1)
      /\ post_submitByText 1%nat s1 = (inr false, s2)
      /\ post_submitByScript 1%nat s2 = (inr false, s3)
      /\ respond (KeyPress 1%nat "Enter") (world s3)
         = (inl keyboard_failure, world (snd (post_submit 1%nat st))).
Proof.
  intro st.
  assert (Hrun :
    post_submit 1%nat st = (inl keyboard_failure, snd (post_submit 1%nat st)))
    by (vm_compute; reflexivity).
  split; [exact Hrun | exact (post_submit_throws _ _ Hrun)].
Defined.

Lemma reply_submit_throws_witness :
  let st := fresh (credentials None) keyboard_dead_site in
  reply_submit 1%nat st = (inl keyboard_failure, snd (reply_submit 1%nat st))
  /\ exists s1 s2,
      reply_submitBySelector 1%nat st = (inr false, s1)
      /\ reply_submitByText 1%nat s1 = (inr false, s2)
      /\ respond (KeyPress 1%nat "Enter") (world s2)
         = (inl keyboard_failure, world (snd (reply_submit 1%nat st))).
Proof.
  intro st.
  assert (Hrun :
    reply_submit 1%nat st = (inl keyboard_failure, snd (reply_submit 1%nat st)))
    by (vm_compute; reflexivity).
  split; [exact Hrun | exact (reply_submit_throws _ _ Hrun)].
Defined.

(** ** A reply without a reply trigger *)

Section ReplyTrigger.

Context {W : Type} {E : Environment W}.

Local Abbreviation M := (M W).

Ltac no_keyboard := reflexivity.

Lemma reply_openStatus_quiet p tweetId :
  maintains (W:=W) (grows_by (fun ev => keyboard ev = false))
    (reply_openStatus p tweetId).
Proof. footprint_walk no_keyboard. Qed.

Lemma reply_clickReply_quiet p :
  maintains (W:=W) (grows_by (fun ev => keyboard ev = false)) (reply_clickReply p).
Proof. footprint_walk no_keyboard. Qed.

Lemma tweet_failed_quiet p error :
  maintains (W:=W) (grows_by (fun ev => keyboard ev = false))
    (tweet_failed p error).
Proof. footprint_walk no_keyboard. Qed.

(** The walk through the reply trigger selectors swallows every rejected
    query and click: the stage throws nothing but its own error. *)
Lemma reply_clickReply_throws p (st : State W) e st' :
  reply_clickReply p st = (inl e, st') -> e = reply_trigger_missing.
Proof.
  unfold reply_clickReply, bind at 1.
  match goal with
  | |- context [for_of ?body ?xs st] =>
      destruct (@for_of_returns W _ body xs) with (st:=st) as [clicked Hloop];
        [ intros selector s; apply try_catch_returns; intros e0 s'; now exists false
        | destruct (for_of body xs st) as [r s1]; simpl in Hloop; subst r ]
  end.
  destruct clicked; unfold ret, throw; [discriminate |].
  now intros [= <- _].
Qed.

(** On a connected connector, suppose a reply got as far as the parent's
    status page ([s0]) and the walk through the reply trigger selectors
    then threw.  What it threw is "Could not find or click reply button";
    provided that the error screenshot of debug mode, if one is taken, is
    not rejected, [tweet] fails with that very error; and in any case
    nothing was typed and no key was pressed: the content went nowhere. *)
Theorem reply_without_trigger content parentId (st : State W) p b s0 e s1 :
  connected (self st) = true ->
  page (self st) = Some p ->
  browser (self st) = Some b ->
  parentId <> ""%string ->
  reply_openStatus p parentId (replying parentId st) = (inr tt, s0) ->
  reply_clickReply p s0 = (inl e, s1) ->
  e = reply_trigger_missing
  /\ (debug_on (self st) = false
      \/ fst (respond (Screenshot p "twitter-tweet-error.png") (world s1)) = inr tt ->
      fst (tweet content (Some parentId) st) = inl reply_trigger_missing)
  /\ exists l,
      trace (snd (tweet content (Some parentId) st)) = trace st ++ l
      /\ Forall (fun ev => keyboard ev = false) l.
Proof.
  intros Hc Hp Hb Hid Hopen Hclick.
  pose proof (reply_clickReply_throws _ _ Hclick) as ->.
  split; [reflexivity |].
  destruct parentId as [| a rest]; [congruence | clear Hid].
  set (parentId := String a rest) in *.
  assert (Hself : self s1 = self st).
  { pose proof (reply_openStatus_keeps_self p parentId (replying parentId st)) as K0.
    pose proof (reply_clickReply_keeps_self p s0) as K1.
    unfold keeps, id in *. rewrite Hopen in K0. rewrite Hclick in K1.
    simpl in *. congruence. }
  assert (Hquiet : grows_by (fun ev => keyboard ev = false) st s1).
  { pose proof (reply_openStatus_quiet p parentId (replying parentId st)) as G0.
    pose proof (reply_clickReply_quiet p s0) as G1.
    rewrite Hopen in G0. rewrite Hclick in G1. simpl in *.
    apply grows_by_trans with (b:=s0); [exact G0 | exact G1]. }
  assert (Hreply : exists s2,
    postReplyWithBrowser content parentId
      (mkState (self st) (world st) (trace st)
               (logs st ++ [(LDebug, "Posting tweet")]))
    = (inl reply_trigger_missing, s2)
    /\ self s2 = self st /\ world s2 = world s1 /\ trace s2 = trace s1).
  { unfold postReplyWithBrowser, require_page, bind at 1 2, this; simpl.
    rewrite Hp. unfold ret at 1, bind at 1, log at 1; simpl.
    fold (replying parentId st).
    assert (Hbody :
      (reply_openStatus p parentId;; reply_clickReply p;;
       reply_locateComposer content p;;
       debug_screenshot p "twitter-reply-composed.png";; reply_submit p;;
       reply_settle p) (replying parentId st) = (inl reply_trigger_missing, s1)).
    { rewrite (bind_returns _ _ _ Hopen). now rewrite (bind_throws _ _ _ Hclick). }
    rewrite (try_throws _ _ _ Hbody).
    unfold bind, log, throw; simpl. eexists. repeat split. simpl. congruence. }
  destruct Hreply as (s2 & Hreply & Hself2 & Hworld2 & Htrace2).
  assert (Htry : tweet_try p content (Some parentId)
                   (mkState (self st) (world st) (trace st)
                            (logs st ++ [(LDebug, "Posting tweet")]))
                 = (inl reply_trigger_missing, s2)).
  { unfold tweet_try, bind at 1, now; simpl.
    now rewrite (bind_throws _ _ _ Hreply). }
  assert (Hrun : tweet content (Some parentId) st
                 = tweet_failed p reply_trigger_missing s2).
  { unfold tweet, bind at 1, this; simpl. rewrite Hc, Hp, Hb.
    unfold bind at 1, log at 1; simpl.
    now rewrite (try_throws _ _ _ Htry). }
  rewrite Hrun. split.
  - intros Hshot.
    unfold tweet_failed, bind at 1, log at 1; simpl.
    match goal with
    | |- fst (_ ?s) = _ =>
        destruct (@debug_screenshot_returns W _ p "twitter-tweet-error.png" s)
          as (s3 & Hshot3 & _)
    end.
    { simpl. rewrite Hself2, Hworld2. exact Hshot. }
    now rewrite (bind_returns _ _ _ Hshot3).
  - destruct Hquiet as (l1 & H1 & F1).
    destruct (tweet_failed_quiet p reply_trigger_missing s2) as (l2 & H2 & F2).
    exists (l1 ++ l2). split; [| now apply Forall_app].
    now rewrite H2, Htrace2, H1, app_assoc.
Qed.

End ReplyTrigger.

(** A reply on a site where no selector matches, debug mode off. *)
Lemma reply_without_trigger_witness :
  let st := snd (connect (inl 0%nat) (fresh (credentials None) quiet_site)) in
  connected (self st) = true
  /\ fst (tweet "hello" (Some "12345") st) = inl reply_trigger_missing
  /\ exists l,
      trace (snd (tweet "hello" (Some "12345") st)) = trace st ++ l
      /\ Forall (fun ev => keyboard ev = false) l.
Proof.
  intro st.
  pose (s0 := snd (reply_openStatus 1%nat "12345" (replying "12345" st))).
  pose (s1 := snd (reply_clickReply 1%nat s0)).
  assert (Hc : connected (self st) = true) by (vm_compute; reflexivity).
  split; [exact Hc |].
  destruct (@reply_without_trigger Site _ "hello" "12345" st 1%nat 1%nat s0
              reply_trigger_missing s1 Hc)
    as (_ & Hthrows & Hquiet);
    try (vm_compute; reflexivity); [discriminate |].
  split; [apply Hthrows; left; vm_compute; reflexivity | exact Hquiet].
Defined.

(** ** How the login ends *)

Section LoginOutcomes.

Context {W : Type} {E : Environment W}.

Local Abbreviation M := (M W).

(** The email handed to [browserLogin] is the configured one, or the
    empty string. *)
Lemma connect_launch_email (st : State W) u pw em st' :
  connect_launch st = (inr (u, pw, em), st') ->
  em = str_or (email (config (self st))) "".
Proof.
  unfold connect_launch, launch, newPage, setViewport, setUserAgent,
    perform, bind, this, log, update, ret, throw; simpl.
  destruct (username (config (self st))) as [[| a u'] |];
    destruct (password (config (self st))) as [[| a' pw'] |];
    simpl; try discriminate.
  destruct (respond (Launch (headless (config (self st)))) (world st))
    as [[e1 | b] w1]; simpl; [discriminate |].
  destruct (respond (NewPage b) w1) as [[e2 | p] w2]; simpl; [discriminate |].
  destruct (respond (SetViewport p 1280 800) w2) as [[e3 | []] w3]; simpl;
    [discriminate |].
  destruct (respond (SetUserAgent p userAgent) w3) as [[e4 | []] w4]; simpl;
    [discriminate |].
  now intros [= _ _ <- _].
Qed.

(** Suppose [connect] has reached the verification step ([s1]) and one
    of the success indicators matched ([s2]).  Then the step returns at
    once: only a prefix of the selector list was queried, the URL is
    never read and no warning is logged; and if the navigation home then
    succeeds, [connect] returns with [connected] set. *)
Theorem login_verified_by_indicator identity (st : State W) u pw em s0 p s1 s2 :
  connect_launch (entering identity st) = (inr (u, pw, em), s0) ->
  page (self s0) = Some p ->
  login_reachVerify p u pw em s0 = (inr tt, s1) ->
  login_findIndicator p s1 = (inr true, s2) ->
  login_verifySuccess p s1 = (inr tt, s2)
  /\ (exists n,
        trace s2
        = trace s1
          ++ map (fun selector => Called (Query p selector))
                 (firstn n successIndicators))
  /\ (forall s3,
        login_navigateHome p s2 = (inr tt, s3) ->
        fst (connect identity st) = inr tt
        /\ connected (self (snd (connect identity st))) = true).
Proof.
  intros Hl Hp Hreach Hfind.
  assert (Hverify : login_verifySuccess p s1 = (inr tt, s2)).
  { unfold login_verifySuccess. now rewrite (bind_returns _ _ _ Hfind). }
  split; [exact Hverify |]. split.
  - destruct (indicators_in_order p successIndicators s1) as (n & found & _ & H2 & _).
    unfold login_findIndicator in Hfind. rewrite Hfind in H2. now exists n.
  - intros s3 Hhome.
    assert (Hflow : login_flow p u pw em s0 = (inr tt, s3)).
    { unfold login_flow. rewrite (bind_returns _ _ _ Hreach).
      now rewrite (bind_returns _ _ _ Hverify). }
    assert (Hret : fst (connect identity st) = inr tt)
      by (apply connect_login_returns
            with (u:=u) (pw:=pw) (em:=em) (s0:=s0) (p:=p) (s4:=s3); assumption).
    split; [exact Hret |].
    destruct (connect identity st) as [r st'] eqn:Hrun; simpl in Hret; subst r.
    now destruct (connect_returns _ _ Hrun) as [Hconn _].
Qed.

(** Suppose no email is configured, [connect] got past the username and
    its Next button ([s1]), and the site shows the email verification
    input.  Then the login procedure gives up without typing anything
    into it, and [connect] fails with the [Error] "Twitter login failed:
    Email verification required but no email provided", provided that
    the error screenshot of debug mode, if one is taken, is not
    rejected. *)
Theorem connect_email_required identity (st : State W) u pw em s0 p sa sb s1 input :
  email (config (self st)) = None ->
  connect_launch (entering identity st) = (inr (u, pw, em), s0) ->
  page (self s0) = Some p ->
  login_navigate p s0 = (inr tt, sa) ->
  login_enterUsername p u sa = (inr tt, sb) ->
  login_clickNext p sb = (inr tt, s1) ->
  fst (respond (Query p verificationInput) (world s1)) = inr (Some input) ->
  debug_on (self st) = false
  \/ fst (respond (Screenshot p "twitter-login-error.png")
                  (snd (respond (Query p verificationInput) (world s1)))) = inr tt ->
  fst (login_emailVerification p em s1) = inl email_required
  /\ trace (snd (login_emailVerification p em s1))
     = trace s1 ++ [Called (Query p verificationInput)]
  /\ fst (connect identity st)
     = inl (Error "Twitter login failed: Email verification required but no email provided").
Proof.
  intros Hemail Hl Hp Hnav Huser Hnext Hquery Hshot.
  pose proof (connect_launch_email _ Hl) as Hem.
  destruct (entering_keeps identity st) as (Ecfg & _).
  rewrite Ecfg, Hemail in Hem; simpl in Hem; subst em.
  assert (Hstep : login_emailVerification p "" s1
                  = (inl email_required,
                     mkState (self s1)
                             (snd (respond (Query p verificationInput) (world s1)))
                             (trace s1 ++ [Called (Query p verificationInput)])
                             (logs s1 ++ [(LDebug, "Email verification needed")]))).
  { unfold login_emailVerification.
    change ("input" ++ attr "data-testid" "ocfEnterTextTextInput")%string
      with verificationInput.
    unfold query, perform, bind at 1.
    destruct (respond (Query p verificationInput) (world s1)) as [[e | [el |]] w];
      simpl in Hquery; try discriminate.
    reflexivity. }
  rewrite Hstep; simpl. repeat split.
  change (fst (connect identity st)
          = inl (Error ("Twitter login failed: " ++ error_text email_required)%string)).
  apply connect_login_error
    with (u:=u) (pw:=pw) (em:=""%string) (s0:=s0) (p:=p)
         (s3:=snd (login_emailVerification p "" s1)); [exact Hl | exact Hp | |].
  - assert (Hreach : login_reachVerify p u pw "" s0
                     = (inl email_required, snd (login_emailVerification p "" s1))).
    { unfold login_reachVerify.
      rewrite (bind_returns _ _ _ Hnav). rewrite (bind_returns _ _ _ Huser).
      rewrite (bind_returns _ _ _ Hnext).
      now rewrite (bind_throws _ _ _ Hstep), Hstep. }
    unfold login_flow. now rewrite (bind_throws _ _ _ Hreach).
  - rewrite Hstep; simpl.
    destruct Hshot as [Hoff | Hok]; [left | now right].
    pose proof (login_navigate_keeps_self p s0) as K0.
    pose proof (login_enterUsername_keeps_self p u sa) as K1.
    pose proof (login_clickNext_keeps_self p sb) as K2.
    pose proof (connect_launch_keeps_config (entering identity st)) as K3.
    unfold keeps, id in *.
    rewrite Hnav in K0; rewrite Huser in K1; rewrite Hnext in K2;
      rewrite Hl in K3; simpl in *.
    unfold debug_on in *. rewrite K2, K1, K0, K3, Ecfg. exact Hoff.
Qed.

End LoginOutcomes.

(** The indicator path on a site that shows the home timeline. *)
Lemma login_verified_by_indicator_witness :
  let st := fresh (credentials None) timeline_site in
  let s0 := snd (connect_launch (entering (inl 0%nat) st)) in
  let s1 := snd (login_reachVerify 1%nat "alice" "secret" "alice@example.org" s0) in
  let s2 := snd (login_findIndicator 1%nat s1) in
  login_findIndicator 1%nat s1 = (inr true, s2)
  /\ login_verifySuccess 1%nat s1 = (inr tt, s2)
  /\ fst (connect (inl 0%nat) st) = inr tt
  /\ connected (self (snd (connect (inl 0%nat) st))) = true.
Proof.
  intros st s0 s1 s2.
  assert (Hfind : login_findIndicator 1%nat s1 = (inr true, s2))
    by (vm_compute; reflexivity).
  split; [exact Hfind |].
  destruct (@login_verified_by_indicator Site _ (inl 0%nat) st
              "alice" "secret" "alice@example.org" s0 1%nat s1 s2)
    as (Hverify & _ & Hconnect);
    try (vm_compute; reflexivity).
  split; [exact Hverify |].
  apply (Hconnect (snd (login_navigateHome 1%nat s2))).
  vm_compute; reflexivity.
Defined.

(** The site asks for the email and none is configured, debug mode off. *)
Lemma connect_email_required_witness :
  let st := fresh credentials_without_email verification_site in
  email (config (self st)) = None
  /\ fst (connect (inl 0%nat) st)
     = inl (Error "Twitter login failed: Email verification required but no email provided").
Proof.
  intros st.
  assert (Hemail : email (config (self st)) = None) by reflexivity.
  split; [exact Hemail |].
  pose (s0 := snd (connect_launch (entering (inl 0%nat) st))).
  pose (sa := snd (login_navigate 1%nat s0)).
  pose (sb := snd (login_enterUsername 1%nat "alice" sa)).
  pose (s1 := snd (login_clickNext 1%nat sb)).
  refine (proj2 (proj2
    (@connect_email_required Site _ (inl 0%nat) st "alice" "secret" ""
       s0 1%nat sa sb s1 3%nat Hemail _ _ _ _ _ _ _)));
    try (vm_compute; reflexivity).
  left. vm_compute; reflexivity.
Defined.

(** ** What a posted tweet went through *)

Section Marks.

Context {W : Type} {E : Environment W}.

Local Abbreviation M := (M W).

Section Closed.

Variable R : State W -> State W -> Prop.
Hypothesis R_after : forall a b c, extends a b -> R b c -> R a c.
Hypothesis R_before : forall a b c, R a b -> extends b c -> R a c.

Lemma upon_throw {A} (ok : A -> bool) e : upon ok R (@throw W A e).
Proof. intros st a st' H. discriminate. Qed.

Lemma upon_ret {A} (ok : A -> bool) (a : A) : ok a = false -> upon ok R (ret a).
Proof. intros Hno st a' st' H Hok. injection H as Ha _. congruence. Qed.

Lemma upon_bind_after {A B} (ok : B -> bool) (m : M A) (k : A -> M B) :
  maintains extends m -> (forall a, upon ok R (k a)) -> upon ok R (bind m k).
Proof.
  intros Hm Hk st b st'. unfold bind. specialize (Hm st).
  destruct (m st) as [[e | a] s1]; simpl in Hm; [discriminate |].
  intros Hrun Hok. apply R_after with (b:=s1); [exact Hm |].
  now apply (Hk a s1 b st').
Qed.

Lemma upon_bind_before {A B} (ok : B -> bool) (m : M A) (k : A -> M B) :
  upon (fun _ => true) R m -> (forall a, maintains extends (k a)) ->
  upon ok R (bind m k).
Proof.
  intros Hm Hk st b st'. unfold bind.
  destruct (m st) as [[e | a] s1] eqn:Hrun; [discriminate |].
  intros Hrest _. apply R_before with (b:=s1); [now apply (Hm st a s1) |].
  specialize (Hk a s1). now rewrite Hrest in Hk.
Qed.

Lemma upon_bind_flag {B} (ok : B -> bool) (m : M bool) (k : bool -> M B) :
  upon (fun found => found) R m ->
  maintains extends m -> (forall a, maintains extends (k a)) ->
  upon ok R (k false) ->
  upon ok R (bind m k).
Proof.
  intros Hfound Hm Hk Hrest st b st'. unfold bind.
  pose proof (Hm st) as Hext.
  destruct (m st) as [[e | [|]] s1] eqn:Hrun; simpl in Hext; [discriminate | |].
  - intros Hgo _. apply R_before with (b:=s1); [now apply (Hfound st true s1) |].
    specialize (Hk true s1). now rewrite Hgo in Hk.
  - intros Hgo Hok. apply R_after with (b:=s1); [exact Hext |].
    now apply (Hrest s1 b st').
Qed.

Lemma upon_try_catch {A} (ok : A -> bool) (m : M A) h :
  upon ok R m -> maintains extends m -> (forall e, upon ok R (h e)) ->
  upon ok R (try_catch m h).
Proof.
  intros Hbody Hm Hh st a st'. unfold try_catch.
  pose proof (Hm st) as Hext.
  destruct (m st) as [[e | a'] s1] eqn:Hrun; simpl in Hext.
  - intros Hgo Hok. apply R_after with (b:=s1); [exact Hext |].
    now apply (Hh e s1 a st').
  - intros H Hok. injection H as Ha Hs. subst a' s1. now apply (Hbody st a st').
Qed.

Lemma upon_for_of {X} (body : X -> M bool) xs :
  (forall x, upon (fun found => found) R (body x)) ->
  (forall x, maintains extends (body x)) ->
  upon (fun found => found) R (for_of body xs).
Proof.
  intros Hbody Hext. induction xs as [| x rest IH]; simpl.
  - now apply upon_ret.
  - apply upon_bind_flag; [apply Hbody | apply Hext | | exact IH].
    intros [|]; [apply (maintains_ret _ (@grows_by_refl W _)) |].
    apply (maintains_for_of (@grows_by_refl W _) (@grows_by_trans W _)).
    intros y _. apply Hext.
Qed.

End Closed.

Lemma marks_after Q (a b c : State W) : extends a b -> marks Q b c -> marks Q a c.
Proof.
  intros (l1 & H1 & _) (l2 & H2 & F2). exists (l1 ++ l2).
  split; [now rewrite H2, H1, app_assoc |].
  rewrite existsb_app, F2. apply orb_true_r.
Qed.

Lemma marks_before Q (a b c : State W) : marks Q a b -> extends b c -> marks Q a c.
Proof.
  intros (l1 & H1 & F1) (l2 & H2 & _). exists (l1 ++ l2).
  split; [now rewrite H2, H1, app_assoc |].
  now rewrite existsb_app, F1.
Qed.

Lemma marks_then_after Q1 Q2 (a b c : State W) :
  extends a b -> marks_then Q1 Q2 b c -> marks_then Q1 Q2 a c.
Proof.
  intros (l & H & _) (l1 & l2 & H12 & F1 & F2). exists (l ++ l1), l2.
  split; [now rewrite H12, H, !app_assoc |].
  split; [| exact F2]. rewrite existsb_app, F1. apply orb_true_r.
Qed.

Lemma marks_then_before Q1 Q2 (a b c : State W) :
  marks_then Q1 Q2 a b -> extends b c -> marks_then Q1 Q2 a c.
Proof.
  intros (l1 & l2 & H12 & F1 & F2) (l & H & _). exists l1, (l2 ++ l).
  split; [now rewrite H, H12, !app_assoc |].
  split; [exact F1 |]. now rewrite existsb_app, F2.
Qed.

Lemma upon_perform Q c (ok : answer c -> bool) :
  Q (Called c) = true -> upon ok (marks Q) (perform c).
Proof.
  intros HQ st a st'. unfold perform.
  destruct (respond c (world st)) as [r w]. intros [= _ <-] _.
  exists [Called c]. split; [reflexivity |]. simpl. now rewrite HQ.
Qed.

(** First a request passing [Q1], then one passing [Q2]. *)
Lemma upon_then {A B} Q1 Q2 (ok : B -> bool) (m : M A) (k : A -> M B) :
  upon (fun _ => true) (marks Q1) m -> (forall a, upon ok (marks Q2) (k a)) ->
  upon ok (marks_then Q1 Q2) (bind m k).
Proof.
  intros Hm Hk st b st'. unfold bind.
  destruct (m st) as [[e | a] s1] eqn:Hrun; [discriminate |].
  intros Hrest Hok.
  destruct (Hm st a s1 Hrun eq_refl) as (l1 & H1 & F1).
  destruct (Hk a s1 b st' Hrest Hok) as (l2 & H2 & F2).
  exists l1, l2. split; [now rewrite H2, H1, app_assoc | now split].
Qed.

End Marks.

Ltac extends_walk := unfold extends; footprint_walk ltac:(idtac; exact I).

(** Walks a procedure for [upon]: at each [bind], either the first part
    establishes the relation and the rest only extends the trace, or the
    first part is a flagged stage that establishes it when it answers
    [true], or the first part only extends the trace and the rest
    establishes the relation. *)
Ltac upon_walk after before leaf seq :=
  cbv beta iota;
  lazymatch goal with
  | |- upon _ _ ?m =>
      lazymatch m with
      | throw _ => apply upon_throw
      | ret _ => apply upon_ret; reflexivity
      | if ?b then _ else _ => destruct b; upon_walk after before leaf seq
      | match ?x with _ => _ end => destruct x; upon_walk after before leaf seq
      | for_of _ _ =>
          apply (upon_for_of after before);
          [ intro; upon_walk after before leaf seq | intro; extends_walk ]
      | try_catch _ _ =>
          apply (upon_try_catch after);
          [ upon_walk after before leaf seq
          | extends_walk
          | intro; upon_walk after before leaf seq ]
      | bind _ _ =>
          first
            [ seq
            | apply (upon_bind_before before);
              [ solve [upon_walk after before leaf seq] | intro; extends_walk ]
            | apply (upon_bind_flag after before);
              [ solve [upon_walk after before leaf seq]
              | extends_walk
              | intro; extends_walk
              | upon_walk after before leaf seq ]
            | apply (upon_bind_after after);
              [ extends_walk | intro; upon_walk after before leaf seq ] ]
      | _ => leaf
      end
  end.

Ltac marks_leaf :=
  idtac;
  lazymatch goal with
  | |- upon _ (marks ?Q) (perform ?c) =>
      refine (@upon_perform _ _ Q c _ _);
      first [ reflexivity
            | cbv beta iota delta [is_typing]; apply String.eqb_refl
            | cbv beta iota delta [is_entry usernameInput passwordInput];
              rewrite !String.eqb_refl; reflexivity ]
  end.

Ltac marks_walk :=
  lazymatch goal with
  | |- @upon ?W0 _ _ (marks ?Q) _ =>
      upon_walk (@marks_after W0 Q) (@marks_before W0 Q) marks_leaf
                ltac:(idtac; fail)
  end.

Ltac marks_seq :=
  idtac;
  apply upon_then; [ solve [marks_walk] | intro; marks_walk ].

Ltac marks_then_walk :=
  autounfold with connector;
  lazymatch goal with
  | |- @upon ?W0 _ _ (marks_then ?Q1 ?Q2) _ =>
      upon_walk (@marks_then_after W0 Q1 Q2) (@marks_then_before W0 Q1 Q2)
                ltac:(idtac; fail) marks_seq
  end.

Section Posted.

Context {W : Type} {E : Environment W}.

Local Abbreviation M := (M W).

Lemma tweet_typed_then_submitted content replyToId :
  upon (W:=W) (fun _ => true) (marks_then (is_typing content) is_submission)
    (tweet content replyToId).
Proof. marks_then_walk. Qed.

(** A tweet is never reported as posted unless its content went through
    the browser: whenever [tweet] returns, new post or reply, the trace
    grew by a request that types exactly [content] (into an element or on
    the raw keyboard) and, later, by a request that submits it (a click,
    the in-page click script or the Enter key). *)
Theorem posted_means_typed_then_submitted content replyToId (st : State W) r st' :
  tweet content replyToId st = (inr r, st') ->
  exists l1 l2,
    trace st' = trace st ++ l1 ++ l2
    /\ existsb (is_typing content) l1 = true
    /\ existsb is_submission l2 = true.
Proof.
  intros Hrun.
  exact (@tweet_typed_then_submitted content replyToId st r st' Hrun eq_refl).
Qed.

Lemma browserLogin_enters_credentials username password email :
  upon (W:=W) (fun _ => true)
    (marks_then (is_entry usernameInput username) (is_entry passwordInput password))
    (browserLogin username password email).
Proof. marks_then_walk. Qed.

(** A login is never reported as done unless both credentials were
    entered: whenever [browserLogin] returns, the trace grew by a request
    that types the username into the username input and, later, by one
    that types the password into the password input. *)
Theorem login_means_credentials_entered username password email
    (st : State W) st' :
  browserLogin username password email st = (inr tt, st') ->
  exists l1 l2,
    trace st' = trace st ++ l1 ++ l2
    /\ existsb (is_entry usernameInput username) l1 = true
    /\ existsb (is_entry passwordInput password) l2 = true.
Proof.
  intros Hrun.
  exact (@browserLogin_enters_credentials username password email st tt st'
           Hrun eq_refl).
Qed.

End Posted.

(** A new post on a site that shows the home timeline. *)
Lemma posted_means_typed_then_submitted_witness :
  let st := snd (connect (inl 0%nat) (fresh (credentials None) timeline_site)) in
  tweet "hello" None st
  = (inr "tweet_posted_1700000000000"%string, snd (tweet "hello" None st))
  /\ exists l1 l2,
      trace (snd (tweet "hello" None st)) = trace st ++ l1 ++ l2
      /\ existsb (is_typing "hello") l1 = true
      /\ existsb is_submission l2 = true.
Proof.
  intro st.
  assert (Hrun : tweet "hello" None st
                 = (inr "tweet_posted_1700000000000"%string,
                    snd (tweet "hello" None st)))
    by (vm_compute; reflexivity).
  split; [exact Hrun | exact (posted_means_typed_then_submitted _ _ _ Hrun)].
Defined.

(** A login on a site that shows the home timeline. *)
Lemma login_means_credentials_entered_witness :
  let st := snd (connect_launch (fresh (credentials None) timeline_site)) in
  browserLogin "alice" "secret" "alice@example.org" st
  = (inr tt, snd (browserLogin "alice" "secret" "alice@example.org" st))
  /\ exists l1 l2,
      trace (snd (browserLogin "alice" "secret" "alice@example.org" st))
      = trace st ++ l1 ++ l2
      /\ existsb (is_entry usernameInput "alice") l1 = true
      /\ existsb (is_entry passwordInput "secret") l2 = true.
Proof.
  intro st.
  assert (Hrun : browserLogin "alice" "secret" "alice@example.org" st
                 = (inr tt, snd (browserLogin "alice" "secret" "alice@example.org" st)))
    by (vm_compute; reflexivity).
  split; [exact Hrun | exact (login_means_credentials_entered _ _ _ _ Hrun)].
Defined.

(** ** The configuration in force *)

Section Configuration.

Context {W : Type} {E : Environment W}.

Local Abbreviation M := (M W).

(** The defaults the constructor applies are never lost: in every
    reachable state the polling period is set and is not zero, the
    headless flag is set, and a timer that is held runs with exactly the
    configured period, so the second default of [setupMonitoring] never
    comes into play. *)
Theorem period_is_configured (st : State W) :
  reachable st ->
  exists n h,
    pollInterval (config (self st)) = Some n
    /\ n <> 0
    /\ headless (config (self st)) = Some h
    /\ forall t, monitorInterval (self st) = Some t -> t = n.
Proof.
  induction 1 as [cfg w | w st _ IH | identity st _ IH | st _ IH
                  | content replyToId st _ IH | tweetId st _ IH
                  | tweetId st _ IH | username st _ IH | st _ IH].
  - exists (num_or (pollInterval cfg) 60000),
           (match headless cfg with Some false => false | _ => true end).
    repeat split; try discriminate.
    unfold num_or. destruct (pollInterval cfg) as [n |]; [| lia].
    destruct (n =? 0) eqn:Hn; lia.
  - exact IH.
  - destruct IH as (n & h & Hn & Hnz & Hh & Ht).
    pose proof (connect_keeps_config identity st) as K. unfold keeps in K.
    exists n, h. rewrite K. repeat split; auto.
    destruct (connect identity st) as [[e | []] st'] eqn:Hrun; simpl.
    + rewrite (connect_throws_keeps_timer _ _ Hrun). exact Ht.
    + destruct (connect_returns_self _ _ Hrun) as (_ & _ & _ & _ & _ & _ & Htimer).
      rewrite Htimer, Hn. unfold num_or.
      destruct (monitoring_configured (config (self st))); [| exact Ht].
      destruct (n =? 0) eqn:Hz; [lia |]. now intros t [= <-].
  - destruct IH as (n & h & Hn & Hnz & Hh & Ht).
    pose proof (disconnect_keeps_config st) as K. unfold keeps in K.
    exists n, h. rewrite K. repeat split; auto.
    destruct (connected (self st)) eqn:Hc.
    + destruct (disconnect_connected_runs _ Hc) as (_ & _ & _ & Hnone & _).
      rewrite Hnone. discriminate.
    + rewrite (disconnect_idle _ Hc). exact Ht.
  - pose proof (tweet_keeps_self content replyToId st) as K.
    unfold keeps, id in K. now rewrite K.
  - exact IH.
  - exact IH.
  - exact IH.
  - exact IH.
Qed.

End Configuration.

(** A connector that monitors a keyword every second, once connected. *)
Lemma period_is_configured_witness :
  let st := snd (connect (inl 0%nat) (fresh monitoring_credentials quiet_site)) in
  reachable st
  /\ monitorInterval (self st) = Some 1000
  /\ pollInterval (config (self st)) = Some 1000.
Proof.
  intro st.
  assert (Hreach : reachable st) by apply reach_connect, reach_new.
  assert (Hheld : monitorInterval (self st) = Some 1000) by (vm_compute; reflexivity).
  destruct (period_is_configured Hreach) as (n & h & Hn & _ & _ & Ht).
  split; [exact Hreach |]. split; [exact Hheld |].
  rewrite Hn. f_equal. symmetry. exact (Ht _ Hheld).
Defined.

(** ** Connecting again *)

Section Reconnect.

Context {W : Type} {E : Environment W}.

Local Abbreviation M := (M W).

Ltac no_close := reflexivity.

Lemma connect_launch_closes_nothing :
  maintains (W:=W) (grows_by (fun ev => is_close ev = false)) connect_launch.
Proof. footprint_walk no_close. Qed.

Lemma browserLogin_closes_nothing username password email :
  maintains (W:=W) (grows_by (fun ev => is_close ev = false))
    (browserLogin username password email).
Proof. footprint_walk no_close. Qed.

Lemma connect_finish_closes_nothing :
  maintains (W:=W) (grows_by (fun ev => is_close ev = false)) connect_finish.
Proof. footprint_walk no_close. Qed.

Lemma connect_launches identity :
  upon (W:=W) (fun _ => true) (marks is_launch) (connect identity).
Proof. autounfold with connector. marks_walk. Qed.

(** Whenever [connect] returns, it has launched a browser and closed
    none: on a connector that already held a browser, the call does not
    close it. *)
Theorem connect_again_closes_nothing identity (st : State W) st' :
  connect identity st = (inr tt, st') ->
  exists l,
    trace st' = trace st ++ l
    /\ existsb is_launch l = true
    /\ Forall (fun ev => is_close ev = false) l.
Proof.
  intros Hrun.
  destruct (@connect_launches identity st tt st' Hrun eq_refl) as (l & Hl & Hlaunch).
  exists l. split; [exact Hl |]. split; [exact Hlaunch |].
  destruct (connect_returns_phases _ _ Hrun)
    as (u & pw & em & s0 & s3 & Hlaunched & Hlogin & Hfin).
  pose proof (connect_launch_closes_nothing (entering identity st)) as G0.
  pose proof (browserLogin_closes_nothing u pw em s0) as G1.
  pose proof (connect_finish_closes_nothing s3) as G2.
  rewrite Hlaunched in G0. rewrite Hlogin in G1. rewrite Hfin in G2.
  simpl in G0, G1, G2.
  destruct (grows_by_trans (grows_by_trans G0 G1) G2) as (l' & Hl' & Hnone).
  destruct (entering_keeps identity st) as (_ & _ & _ & _ & _ & Htrace).
  rewrite Htrace, Hl in Hl'. apply app_inv_head in Hl'. now subst l'.
Qed.

End Reconnect.

(** Connecting twice on a site that shows the home timeline: the
    connector holds a browser before the second call, which closes
    none. *)
Lemma connect_again_closes_nothing_witness :
  let st := snd (connect (inl 0%nat) (fresh (credentials None) timeline_site)) in
  browser (self st) = Some 1%nat
  /\ connect (inl 0%nat) st = (inr tt, snd (connect (inl 0%nat) st))
  /\ exists l,
      trace (snd (connect (inl 0%nat) st)) = trace st ++ l
      /\ existsb is_launch l = true
      /\ Forall (fun ev => is_close ev = false) l.
Proof.
  intro st.
  assert (Hrun : connect (inl 0%nat) st = (inr tt, snd (connect (inl 0%nat) st)))
    by (vm_compute; reflexivity).
  split; [vm_compute; reflexivity |].
  split; [exact Hrun | exact (connect_again_closes_nothing _ _ Hrun)].
Defined.
